(** * quotegenerator.py: a shallow embedding and its verified properties

    The program keeps a list of quotes in the text file [quotes.txt], one
    quote per line, and offers five commands over it (random, list, count,
    add, remove).  Python strings are modelled as lists of Unicode code
    points, the file system as a finite map from paths to decoded file
    contents, and every function of the source as a computation in a small
    state-and-exception monad over a [world] holding the files, the
    chronological log of effects and the draws of the random generator. *)

From Stdlib Require Import NArith ZArith Ascii String DecimalString.
From stdpp Require Import gmap strings list fin_maps.

(** ** Python strings *)

Module PyStr.

Local Open Scope N_scope.

(** A character is a code point, a [str] a sequence of characters. *)
Definition char := N.
Definition str := list N.

(** String literals of this file are UTF-8 byte strings; [cont] and
    [utf8_decode] turn them into code points (1 to 4 byte sequences). *)
Definition cont (b : N) : N := N.land b 63.

Fixpoint utf8_decode (bs : list N) : str :=
  match bs with
  | [] => []
  | b :: r =>
    if b <? 128 then b :: utf8_decode r
    else if b <? 224 then
      match r with
      | b1 :: r1 => (N.land b 31 * 64 + cont b1) :: utf8_decode r1
      | _ => [b]
      end
    else if b <? 240 then
      match r with
      | b1 :: b2 :: r2 =>
        (N.land b 15 * 4096 + cont b1 * 64 + cont b2) :: utf8_decode r2
      | _ => [b]
      end
    else
      match r with
      | b1 :: b2 :: b3 :: r3 =>
        (N.land b 7 * 262144 + cont b1 * 4096 + cont b2 * 64 + cont b3)
          :: utf8_decode r3
      | _ => [b]
      end
  end.

Definition lit (s : string) : str :=
  utf8_decode (map N_of_ascii (list_ascii_of_string s)).

Definition NL : char := 10.
Definition CR : char := 13.
Definition PIPE : char := 124.

(** [str.isspace] for one character: the code points CPython lists in
    [_PyUnicode_IsWhitespace]. *)
Definition isspace (c : char) : bool :=
  ((9 <=? c) && (c <=? 13)) || ((28 <=? c) && (c <=? 32))
  || (c =? 133) || (c =? 160) || (c =? 5760)
  || ((8192 <=? c) && (c <=? 8202))
  || (c =? 8232) || (c =? 8233) || (c =? 8239) || (c =? 8287)
  || (c =? 12288).

Fixpoint lstrip (s : str) : str :=
  match s with
  | [] => []
  | c :: s' => if isspace c then lstrip s' else s
  end.

Definition rstrip (s : str) : str := rev (lstrip (rev s)).

(** [s.strip()]: whitespace removed at both ends. *)
Definition strip (s : str) : str := lstrip (rstrip s).

(** [sep in s] for a one-character [sep]. *)
Definition contains (sep : char) (s : str) : bool := existsb (N.eqb sep) s.

(** [s.split(sep, 1)] for a one-character [sep]: the list of parts, cut at
    the first occurrence only. *)
Fixpoint split1 (sep : char) (s : str) : list str :=
  match s with
  | [] => [[]]
  | c :: s' =>
    if c =? sep then [[]; s']
    else match split1 sep s' with
         | p :: ps => (c :: p) :: ps
         | [] => [[c]]
         end
  end.

(** [s.lower()], as far as the program can observe it: the only use is the
    comparison of the result with ["unknown"], and the code points whose
    lower case is an ASCII letter are the ASCII capitals and the Kelvin sign
    U+212A.  Every other code point is left as it is, which changes no
    comparison with an ASCII word. *)
Definition lower_char (c : char) : char :=
  if (65 <=? c) && (c <=? 90) then c + 32
  else if c =? 8490 then 107
  else c.

Definition lower (s : str) : str := map lower_char s.

Definition str_eqb (a b : str) : bool := bool_decide (a = b).

(** The strings UTF-8 can encode: every code point is a Unicode scalar
    value, none a surrogate (U+D800 to U+DFFF).  Text read from a UTF-8 file
    always is; an argument of the command line that held a byte outside
    UTF-8 is not. *)
Definition encodable (s : str) : bool :=
  forallb (λ c, (c <? 55296) || ((57343 <? c) && (c <=? 1114111))) s.

(** [str(n)] for a non-negative integer. *)
Definition of_nat (n : nat) : str :=
  map N_of_ascii
      (list_ascii_of_string (NilEmpty.string_of_uint (Nat.to_uint n))).

End PyStr.

Import PyStr.

(** ** The world, and computations over it *)

Module Py.

(** The exceptions the modelled statements can raise. *)
Inductive exn := ValueError | IndexError | FileNotFoundError.

(** What a run does to the outside, in the order it happens. *)
Inductive event :=
| EvOpenW (path : string)
| EvWrite (path : string) (data : str)
| EvPrint (line : str).

Record world := World {
  files : gmap string str;
  log : list event;
  draws : list nat }.

Inductive outcome (A : Type) :=
| Ret (a : A)
| Raise (e : exn).
Arguments Ret {A} a.
Arguments Raise {A} e.

Definition M (A : Type) : Type := world → outcome A * world.

Definition ret {A} (a : A) : M A := λ w, (Ret a, w).
Definition raise {A} (e : exn) : M A := λ w, (Raise e, w).
Definition bind {A B} (m : M A) (k : A → M B) : M B :=
  λ w, match m w with
       | (Ret a, w') => k a w'
       | (Raise e, w') => (Raise e, w')
       end.

Definition emit (e : event) (w : world) : world :=
  World (files w) (log w ++ [e]) (draws w).

(** [os.path.exists(path)] *)
Definition path_exists (path : string) : M bool :=
  λ w, (Ret (bool_decide (is_Some (files w !! path))), w).

(** [open(path, "w")]: the file is created, or emptied when it exists. *)
Definition open_w (path : string) : M unit :=
  λ w, (Ret tt, emit (EvOpenW path)
                     (World (<[path := []]> (files w)) (log w) (draws w))).

(** [f.write(data)] on a file opened for writing, for [data] that the
    file's encoding can encode ([encodable]): appended to what the handle
    has written so far.  Python raises [UnicodeEncodeError] on any other
    [data]; that is outside this model, and every statement about writing
    strings that were not read from the storage file assumes them
    [encodable]. *)
Definition fwrite (path : string) (data : str) : M unit :=
  λ w, (Ret tt,
        emit (EvWrite path data)
             (World (<[path := default [] (files w !! path) ++ data]> (files w))
                    (log w) (draws w))).

(** Text-mode reading with universal newlines: a line ends at ["\n"],
    ["\r"] or ["\r\n"], and is handed out with the terminator ["\n"]. *)
Fixpoint readlines (s : str) : list str :=
  match s with
  | [] => []
  | c :: s' =>
    if N.eqb c NL then [NL] :: readlines s'
    else if N.eqb c CR then
      match s' with
      | c' :: s'' =>
        if N.eqb c' NL then [NL] :: readlines s'' else [NL] :: readlines s'
      | [] => [[NL]]
      end
    else match readlines s' with
         | l :: ls => (c :: l) :: ls
         | [] => [[c]]
         end
  end.

(** [open(path, "r")] followed by the iteration over the file's lines. *)
Definition read_lines (path : string) : M (list str) :=
  λ w, match files w !! path with
       | Some content => (Ret (readlines content), w)
       | None => (Raise FileNotFoundError, w)
       end.

(** [print(line)] *)
Definition print (line : str) : M unit :=
  λ w, (Ret tt, emit (EvPrint line) w).

(** [random.choice(l)]: the next draw of the generator picks the index. *)
Definition random_choice {A} (l : list A) : M A :=
  λ w, match l !! (hd 0%nat (draws w) mod length l)%nat with
       | Some x => (Ret x, World (files w) (log w) (tl (draws w)))
       | None => (Raise IndexError, w)
       end.

(** [l.pop(i)]: the removed item and the list without it; a negative index
    counts from the end, an index out of range raises. *)
Definition pop {A} (l : list A) (i : Z) : M (A * list A) :=
  let n := Z.of_nat (length l) in
  let j := if (i <? 0)%Z then (i + n)%Z else i in
  match (if (0 <=? j)%Z then l !! Z.to_nat j else None) with
  | Some x => ret (x, delete (Z.to_nat j) l)
  | None => raise IndexError
  end.

(** [a, b = parts] *)
Definition unpack2 {A} (parts : list A) : M (A * A) :=
  match parts with
  | [a; b] => ret (a, b)
  | _ => raise ValueError
  end.

(** [for x in l: body(x)] *)
Fixpoint for_each {A} (l : list A) (body : A → M unit) : M unit :=
  match l with
  | [] => ret tt
  | x :: l' => bind (body x) (λ _, for_each l' body)
  end.

(** A loop that updates a local variable [acc] on every turn. *)
Fixpoint for_acc {A S} (l : list A) (acc : S) (body : S → A → M S) : M S :=
  match l with
  | [] => ret acc
  | x :: l' => bind (body acc x) (λ acc', for_acc l' acc' body)
  end.

(** [enumerate(l, start)] *)
Fixpoint enumerate {A} (start : nat) (l : list A) : list (nat * A) :=
  match l with
  | [] => []
  | x :: l' => (start, x) :: enumerate (S start) l'
  end.

(** What was printed, and which paths were opened for writing. *)
Definition stdout (w : world) : list str :=
  omap (λ e, match e with EvPrint l => Some l | _ => None end) (log w).

Definition written (w : world) : list string :=
  omap (λ e, match e with
             | EvOpenW p => Some p
             | EvWrite p _ => Some p
             | EvPrint _ => None
             end) (log w).

End Py.

Import Py.

Notation "x <- m ;; k" := (bind m (λ x, k))
  (at level 100, m at next level, k at level 200, right associativity).
Notation "m ;;; k" := (bind m (λ _, k))
  (at level 100, k at level 200, right associativity).

(** ** The program *)

(** A quote is the tuple [(text, author)]. *)
Definition quote : Type := str * str.

(** Python's truth value of a string or a list: non-empty. *)
Definition truthy {A} (s : list A) : bool :=
  match s with [] => false | _ :: _ => true end.

Definition QUOTES_FILE : string := "quotes.txt".

Definition DEFAULT_QUOTES : list str := [
  lit "The best way to get started is to quit talking and begin doing.|Walt Disney";
  lit "Whether you think you can or you think you can’t, you’re right.|Henry Ford";
  lit "It always seems impossible until it’s done.|Nelson Mandela";
  lit "Stay hungry, stay foolish.|Steve Jobs";
  lit "You miss 100% of the shots you don’t take.|Wayne Gretzky";
  lit "If you’re going through hell, keep going.|Winston Churchill";
  lit "Dream big and dare to fail.|Norman Vaughan";
  lit "The secret of getting ahead is getting started.|Mark Twain";
  lit "Small steps every day.|Unknown";
  lit "Do one thing every day that scares you.|Eleanor Roosevelt"
].

Definition ensure_quotes_file : M unit :=
  present <- path_exists QUOTES_FILE ;;
  if negb present then
    open_w QUOTES_FILE ;;;
    for_each DEFAULT_QUOTES (λ line, fwrite QUOTES_FILE (strip line ++ [NL]))
  else ret tt.

Definition load_quotes : M (list quote) :=
  ensure_quotes_file ;;;
  lines <- read_lines QUOTES_FILE ;;
  for_acc lines [] (λ quotes raw,
    let raw := strip raw in
    if negb (truthy raw) then ret quotes
    else
      parts <- (if contains PIPE raw then unpack2 (split1 PIPE raw)
                else ret (raw, lit "Unknown")) ;;
      let '(text, author) := parts in
      ret (quotes ++ [(strip text, strip author)])).

Definition save_quotes (quotes : list quote) : M unit :=
  open_w QUOTES_FILE ;;;
  for_each quotes (λ '(text, author),
    if truthy author && negb (str_eqb (lower author) (lit "unknown"))
    then fwrite QUOTES_FILE (text ++ [PIPE] ++ author ++ [NL])
    else fwrite QUOTES_FILE (text ++ [NL])).

Definition print_random_quote : M unit :=
  quotes <- load_quotes ;;
  if negb (truthy quotes) then print (lit "No quotes found. Add one with --add.")
  else
    chosen <- random_choice quotes ;;
    let '(text, author) := chosen in
    print (lit "“" ++ text ++ lit "” — " ++ author).

Definition list_quotes : M unit :=
  quotes <- load_quotes ;;
  if negb (truthy quotes) then print (lit "No quotes yet. Add some with --add.")
  else
    for_each (enumerate 1 quotes) (λ '(i, (text, author)),
      print (of_nat i ++ lit ". " ++ text ++ lit " — " ++ author)).

Definition add_quote (raw : str) : M unit :=
  let raw := strip raw in
  if negb (truthy raw) then print (lit "Provide a non-empty quote.")
  else
    parts <- (if contains PIPE raw then unpack2 (split1 PIPE raw)
              else ret (raw, lit "Unknown")) ;;
    let '(text, author) := parts in
    quotes <- load_quotes ;;
    let quotes := quotes ++ [(strip text, strip author)] in
    save_quotes quotes ;;;
    print (lit "✅ Added.").

Definition remove_quote (index : Z) : M unit :=
  quotes <- load_quotes ;;
  if negb ((1 <=? index)%Z && (index <=? Z.of_nat (length quotes))%Z) then
    print (lit "Index out of range. Must be 1.." ++ of_nat (length quotes))
  else
    popped <- pop quotes (index - 1) ;;
    let '(removed, quotes) := popped in
    save_quotes quotes ;;;
    print (lit "🗑️ Removed: “" ++ removed.1 ++ lit "” — " ++ removed.2).

(** The namespace [parse_args] returns: two [store_true] flags and two
    options that are [None] when not given. *)
Record Namespace := {
  arg_list : bool;
  arg_count : bool;
  arg_add : option str;
  arg_remove : option Z }.

(** The truth value of [args.add]: given, and not the empty string. *)
Definition arg_truthy (o : option str) : bool :=
  match o with Some s => truthy s | None => false end.

Definition main (args : Namespace) : M unit :=
  if arg_truthy (arg_add args) then add_quote (default [] (arg_add args))
  else if bool_decide (arg_remove args ≠ None) then
    remove_quote (default 0%Z (arg_remove args))
  else if arg_list args then list_quotes
  else if arg_count args then
    quotes <- load_quotes ;; print (of_nat (length quotes))
  else print_random_quote.

(** ** Predicates on strings *)

(** All whitespace, and ends that are not whitespace. *)
Definition allspace (s : str) : bool := forallb isspace s.
Definition tight (s : str) : bool :=
  negb (isspace (hd 0%N s)) && negb (isspace (hd 0%N (rev s))).

(** The position of the first occurrence of a character. *)
Fixpoint find_char (sep : char) (s : str) : option nat :=
  match s with
  | [] => None
  | c :: s' => if N.eqb c sep then Some 0%nat else S <$> find_char sep s'
  end.

(** No line terminator inside. *)
Definition no_newline (s : str) : bool :=
  forallb (λ c, negb (N.eqb c NL) && negb (N.eqb c CR)) s.

(** A line as the reader hands it out: no terminator inside, and at most
    the terminator at its end. *)
Definition line_shape (l : str) : Prop :=
  ∃ body, no_newline body = true ∧ (l = body ++ [NL] ∨ l = body).

(** ** What the spec says, as definitions of its own *)

(** [save]: [text|author] when the author is present and not, ignoring
    case, "Unknown"; otherwise just the text. *)
Definition spec_line (q : quote) : str :=
  if decide (q.2 ≠ [] ∧ lower q.2 ≠ lower (lit "Unknown"))
  then q.1 ++ [PIPE] ++ q.2
  else q.1.

Definition spec_content (l : list quote) : str :=
  concat (map (λ q, spec_line q ++ [NL]) l).

(** [load]: a blank line gives nothing; any other line is cut at its first
    ["|"] into a trimmed text and a trimmed author, and without a ["|"] it is
    the trimmed text of a quote by "Unknown". *)
Definition spec_parse_line (line : str) : option quote :=
  if allspace line then None
  else match find_char PIPE line with
       | Some k => Some (strip (take k line), strip (drop (S k) line))
       | None => Some (strip line, lit "Unknown")
       end.

Definition spec_load (content : str) : list quote :=
  omap spec_parse_line (readlines content).

(** The content [ensure_quotes_file] gives a new storage file. *)
Definition default_lines : list str :=
  map (λ line, strip line ++ [NL]) DEFAULT_QUOTES.

(** ** Predicates on quotes, and worlds to start from *)

(** Well-formed quotes, in the words of the round-trip property: both
    fields non-empty after trimming, and no newline inside. *)
Definition well_formed (q : quote) : Prop :=
  strip q.1 ≠ [] ∧ strip q.2 ≠ []
  ∧ no_newline q.1 = true ∧ no_newline q.2 = true.

(** Quotes that one line of the file represents exactly: trimmed non-empty
    fields without newline, no ["|"] in the text, and an author that is not
    a differently-cased spelling of "Unknown". *)
Definition storable (q : quote) : Prop :=
  (strip q.1 = q.1 ∧ q.1 ≠ []) ∧ (strip q.2 = q.2 ∧ q.2 ≠ [])
  ∧ (no_newline q.1 = true ∧ no_newline q.2 = true)
  ∧ contains PIPE q.1 = false
  ∧ (lower q.2 = lower (lit "Unknown") → q.2 = lit "Unknown").

(** Quotes whose two fields UTF-8 can encode. *)
Definition encodable_quote (q : quote) : Prop :=
  encodable q.1 = true ∧ encodable q.2 = true.

#[global] Instance encodable_quote_dec q : Decision (encodable_quote q).
Proof. unfold encodable_quote. apply _. Defined.

(** What every quote that [load_quotes] returns looks like. *)
Definition loaded_shape (q : quote) : Prop :=
  strip q.1 = q.1 ∧ strip q.2 = q.2
  ∧ (no_newline q.1 = true ∧ no_newline q.2 = true)
  ∧ contains PIPE q.1 = false.

(** Quotes with a text and an author to show, the author not being a
    differently-cased spelling of "Unknown". *)
Definition presentable (q : quote) : Prop :=
  q.1 ≠ [] ∧ q.2 ≠ []
  ∧ (lower q.2 = lower (lit "Unknown") → q.2 = lit "Unknown").

#[global] Instance well_formed_dec q : Decision (well_formed q).
Proof. unfold well_formed. apply _. Defined.

#[global] Instance storable_dec q : Decision (storable q).
Proof. unfold storable. apply _. Defined.

#[global] Instance presentable_dec q : Decision (presentable q).
Proof. unfold presentable. apply _. Defined.

(** The ten quotes of [DEFAULT_QUOTES] as pairs, and a line in
    [text|author] form. *)
Definition default_quotes : list quote := [
  (lit "The best way to get started is to quit talking and begin doing.",
   lit "Walt Disney");
  (lit "Whether you think you can or you think you can’t, you’re right.",
   lit "Henry Ford");
  (lit "It always seems impossible until it’s done.", lit "Nelson Mandela");
  (lit "Stay hungry, stay foolish.", lit "Steve Jobs");
  (lit "You miss 100% of the shots you don’t take.", lit "Wayne Gretzky");
  (lit "If you’re going through hell, keep going.", lit "Winston Churchill");
  (lit "Dream big and dare to fail.", lit "Norman Vaughan");
  (lit "The secret of getting ahead is getting started.", lit "Mark Twain");
  (lit "Small steps every day.", lit "Unknown");
  (lit "Do one thing every day that scares you.", lit "Eleanor Roosevelt")
].

Definition pipe_line (q : quote) : str := q.1 ++ [PIPE] ++ q.2 ++ [NL].

(** The world after [ensure_quotes_file]. *)
Definition ensured (w : world) : world := (ensure_quotes_file w).2.

(** A world whose only file is the storage file. *)
Definition with_file (content : str) : world :=
  World {[ QUOTES_FILE := content ]} [] [].

(** The list [load_quotes] returns in a world. *)
Definition stored (w : world) : list quote :=
  match files (ensured w) !! QUOTES_FILE with
  | Some content => spec_load content
  | None => []
  end.

(** Quotes that [save_quotes] writes as one line that [load_quotes] reads
    as one quote: trimmed fields without newline, a non-empty text without
    ["|"]. *)
Definition savable (q : quote) : Prop :=
  (strip q.1 = q.1 ∧ q.1 ≠ []) ∧ strip q.2 = q.2
  ∧ (no_newline q.1 = true ∧ no_newline q.2 = true)
  ∧ contains PIPE q.1 = false.

#[global] Instance savable_dec q : Decision (savable q).
Proof. unfold savable. apply _. Defined.

(** What a quote is after it was saved and loaded: an author that is
    missing, or "Unknown" in any case, has become "Unknown". *)
Definition canon (q : quote) : quote :=
  (q.1, if decide (q.2 ≠ [] ∧ lower q.2 ≠ lower (lit "Unknown"))
        then q.2 else lit "Unknown").

(** The lines the commands print for a quote. *)
Definition numbered_line (i : nat) (q : quote) : str :=
  of_nat (S i) ++ lit ". " ++ q.1 ++ lit " — " ++ q.2.
Definition random_line (q : quote) : str :=
  lit "“" ++ q.1 ++ lit "” — " ++ q.2.
Definition removed_line (q : quote) : str :=
  lit "🗑️ Removed: “" ++ q.1 ++ lit "” — " ++ q.2.

(** Only the storage file differs between two worlds. *)
Definition storage_only (w w' : world) : Prop :=
  ∀ p, p ≠ QUOTES_FILE → files w' !! p = files w !! p.

(** The namespace of a command that only reads: no add argument that
    counts, no remove argument. *)
Definition read_only (args : Namespace) : Prop :=
  arg_truthy (arg_add args) = false ∧ arg_remove args = None.

(** ** Facts about [strip], [split1] and [readlines] *)

Section StringFacts.

Lemma lstrip_allspace ws s : allspace ws = true → lstrip (ws ++ s) = lstrip s.
Proof.
  induction ws as [|c ws IH]; simpl; [done|].
  intros [Hc Hws]%andb_true_iff. rewrite Hc. auto.
Qed.

Lemma lstrip_all ws : allspace ws = true → lstrip ws = [].
Proof.
  intros H. rewrite <- (app_nil_r ws). by rewrite lstrip_allspace.
Qed.

Lemma lstrip_head c s : isspace c = false → lstrip (c :: s) = c :: s.
Proof. simpl. by intros ->. Qed.

Lemma allspace_app a b : allspace (a ++ b) = allspace a && allspace b.
Proof. apply forallb_app. Qed.

Lemma allspace_rev a : allspace (rev a) = allspace a.
Proof.
  induction a as [|c a IH]; simpl; [done|].
  rewrite allspace_app, IH. simpl. rewrite andb_true_r. apply andb_comm.
Qed.

Lemma lstrip_decomp s :
  ∃ ws, allspace ws = true ∧ s = ws ++ lstrip s
        ∧ isspace (hd 0%N (lstrip s)) = false.
Proof.
  induction s as [|c s (ws & Hws & Hs & Hh)]; simpl.
  - by exists [].
  - destruct (isspace c) eqn:Hc.
    + exists (c :: ws). simpl. rewrite Hc, Hws. split; [done|].
      split; [by f_equal|done].
    + exists []. by simpl.
Qed.

Lemma strip_unique ws1 m ws2 :
  allspace ws1 = true → allspace ws2 = true → tight m = true →
  strip (ws1 ++ m ++ ws2) = m.
Proof.
  intros H1 H2 [Hh Hl]%andb_true_iff.
  apply negb_true_iff in Hh, Hl.
  unfold strip, rstrip. rewrite !rev_app_distr, <- app_assoc.
  rewrite lstrip_allspace by by rewrite allspace_rev.
  destruct (rev m) as [|d rm] eqn:Hrm.
  - apply (f_equal (@rev N)) in Hrm. rewrite rev_involutive in Hrm.
    subst m. simpl. rewrite (lstrip_all (rev ws1)); [done|].
    by rewrite allspace_rev.
  - simpl in Hl. simpl. rewrite Hl.
    change (d :: rm ++ rev ws1) with ((d :: rm) ++ rev ws1).
    rewrite <- Hrm, rev_app_distr, !rev_involutive.
    rewrite lstrip_allspace by done.
    destruct m as [|c m']; [done|]. by apply lstrip_head.
Qed.

Lemma tight_strip s : tight (strip s) = true.
Proof.
  unfold strip, rstrip, tight.
  destruct (lstrip_decomp (rev s)) as (ws2 & Hws2 & Hs2 & Hl).
  set (r := lstrip (rev s)) in *.
  destruct (lstrip_decomp (rev r)) as (ws1 & Hws1 & Hs1 & Hh).
  rewrite Hh. simpl.
  destruct (lstrip (rev r)) as [|c t] eqn:Ht; [done|].
  assert (Hr : r = rev (c :: t) ++ rev ws1).
  { rewrite <- rev_app_distr, <- Hs1. by rewrite rev_involutive. }
  destruct (rev (c :: t)) as [|d u] eqn:Hu.
  - apply (f_equal (@length N)) in Hu. rewrite length_rev in Hu. done.
  - rewrite Hr in Hl. simpl in Hl. simpl. by rewrite Hl.
Qed.

Lemma strip_decomp s :
  ∃ ws1 ws2, allspace ws1 = true ∧ allspace ws2 = true
             ∧ s = ws1 ++ strip s ++ ws2.
Proof.
  unfold strip, rstrip.
  destruct (lstrip_decomp (rev s)) as (ws2 & Hws2 & Hs2 & _).
  set (r := lstrip (rev s)) in *.
  destruct (lstrip_decomp (rev r)) as (ws1 & Hws1 & Hs1 & _).
  exists ws1, (rev ws2). rewrite allspace_rev. do 2 (split; [done|]).
  rewrite app_assoc, <- Hs1, <- rev_app_distr, <- Hs2.
  by rewrite rev_involutive.
Qed.

Lemma strip_tight s : tight s = true → strip s = s.
Proof.
  intros H. rewrite <- (app_nil_r s) at 1.
  by apply (strip_unique [] s []).
Qed.

Lemma strip_fixed_tight s : strip s = s → tight s = true.
Proof. intros <-. apply tight_strip. Qed.

Lemma strip_idem s : strip (strip s) = strip s.
Proof. apply strip_tight, tight_strip. Qed.

Lemma strip_ws_l ws s : allspace ws = true → strip (ws ++ s) = strip s.
Proof.
  intros Hws. destruct (strip_decomp s) as (u1 & u2 & H1 & H2 & Hs).
  rewrite Hs at 1. rewrite app_assoc.
  apply strip_unique; [|done|apply tight_strip].
  by rewrite allspace_app, Hws, H1.
Qed.

Lemma strip_ws_r s ws : allspace ws = true → strip (s ++ ws) = strip s.
Proof.
  intros Hws. destruct (strip_decomp s) as (u1 & u2 & H1 & H2 & Hs).
  rewrite Hs at 1. rewrite <- !app_assoc.
  apply strip_unique; [done| |apply tight_strip].
  by rewrite allspace_app, Hws, H2.
Qed.

Lemma strip_nil_allspace s : strip s = [] ↔ allspace s = true.
Proof.
  split.
  - intros H. destruct (strip_decomp s) as (u1 & u2 & H1 & H2 & Hs).
    rewrite Hs, H, !allspace_app, H1, H2. done.
  - intros H. rewrite <- (app_nil_r s). rewrite strip_ws_l; done.
Qed.

Lemma strip_Forall (P : char → Prop) s : Forall P s → Forall P (strip s).
Proof.
  intros H. destruct (strip_decomp s) as (u1 & u2 & _ & _ & Hs).
  rewrite Hs in H. by apply Forall_app in H as [_ [? _]%Forall_app].
Qed.

Lemma tight_cons_app c s d t :
  isspace c = false → isspace d = false → tight (c :: s ++ t ++ [d]) = true.
Proof.
  intros Hc Hd. unfold tight. simpl. rewrite Hc. simpl.
  rewrite !rev_app_distr. simpl. by rewrite Hd.
Qed.

Lemma tight_head c s : tight (c :: s) = true → isspace c = false.
Proof. by intros [?%negb_true_iff _]%andb_true_iff. Qed.

Lemma tight_last s d : tight (s ++ [d]) = true → isspace d = false.
Proof.
  intros [_ H%negb_true_iff]%andb_true_iff.
  by rewrite rev_app_distr in H.
Qed.

(** Characters that are not whitespace survive in no all-whitespace string. *)
Lemma allspace_no_pipe ws : allspace ws = true → contains PIPE ws = false.
Proof.
  induction ws as [|c ws IH]; [done|].
  unfold allspace, contains. cbn [forallb existsb].
  intros [Hc Hws]%andb_true_iff. apply orb_false_iff. split; [|by apply IH].
  apply N.eqb_neq. intros <-. by vm_compute in Hc.
Qed.

Lemma contains_app sep a b :
  contains sep (a ++ b) = contains sep a || contains sep b.
Proof. apply existsb_app. Qed.

Lemma contains_cut sep s :
  contains sep s = true →
  ∃ t a, s = t ++ sep :: a ∧ contains sep t = false.
Proof.
  induction s as [|c s IH]; simpl; [done|].
  destruct (N.eqb_spec sep c) as [<-|Hne]; simpl.
  - intros _. by exists [], s.
  - intros (t & a & -> & Ht)%IH. exists (c :: t), a. split; [done|].
    simpl. rewrite Ht. by apply N.eqb_neq in Hne as ->.
Qed.

Lemma split1_none sep s : contains sep s = false → split1 sep s = [s].
Proof.
  induction s as [|c s IH]; simpl; [done|].
  intros [Hc Hs]%orb_false_iff. rewrite N.eqb_sym, Hc. by rewrite IH.
Qed.

Lemma split1_cut sep t a :
  contains sep t = false → split1 sep (t ++ sep :: a) = [t; a].
Proof.
  induction t as [|c t IH]; simpl.
  - by rewrite N.eqb_refl.
  - intros [Hc Ht]%orb_false_iff. rewrite N.eqb_sym, Hc. by rewrite IH.
Qed.

Lemma find_char_none sep s : contains sep s = false → find_char sep s = None.
Proof.
  induction s as [|c s IH]; simpl; [done|].
  intros [Hc Hs]%orb_false_iff. rewrite N.eqb_sym, Hc. by rewrite IH.
Qed.

Lemma find_char_cut sep t a :
  contains sep t = false → find_char sep (t ++ sep :: a) = Some (length t).
Proof.
  induction t as [|c t IH]; simpl.
  - by rewrite N.eqb_refl.
  - intros [Hc Ht]%orb_false_iff. rewrite N.eqb_sym, Hc. by rewrite IH.
Qed.

Lemma contains_strip sep s :
  contains sep s = false → contains sep (strip s) = false.
Proof.
  destruct (strip_decomp s) as (u1 & u2 & _ & _ & Hs). rewrite Hs at 1.
  rewrite !contains_app. by intros [_ [? _]%orb_false_iff]%orb_false_iff.
Qed.

Lemma drop_past_cut (l : str) x k : drop (S (length l)) (l ++ x :: k) = k.
Proof. induction l; simpl; auto. Qed.

Lemma readlines_line body rest :
  no_newline body = true →
  readlines (body ++ NL :: rest) = (body ++ [NL]) :: readlines rest.
Proof.
  induction body as [|c body IH]; [done|].
  intros [[Hn Hr]%andb_true_iff Hb]%andb_true_iff.
  apply negb_true_iff in Hn, Hr.
  cbn [app readlines]. rewrite Hn, Hr. by rewrite IH.
Qed.

Lemma readlines_shape_aux n s :
  (length s ≤ n)%nat → Forall line_shape (readlines s).
Proof.
  revert s. induction n as [|n IH]; intros s Hlen.
  - destruct s; [constructor | simpl in Hlen; lia].
  - destruct s as [|c s]; [constructor|]. simpl in Hlen.
    assert (Hnl : line_shape [NL]) by (exists []; auto).
    cbn [readlines].
    destruct (N.eqb c NL) eqn:Hn.
    { constructor; [done|]. apply IH. lia. }
    destruct (N.eqb c CR) eqn:Hr.
    { destruct s as [|c' s']; [constructor; [exact Hnl|constructor]|].
      simpl in Hlen. destruct (N.eqb c' NL).
      - constructor; [done|]. apply IH. lia.
      - constructor; [done|]. apply IH. simpl. lia. }
    assert (IHs : Forall line_shape (readlines s)) by (apply IH; lia).
    destruct (readlines s) as [|l ls].
    + constructor; [|constructor]. exists [c]. simpl. rewrite Hn, Hr. auto.
    + apply Forall_cons in IHs as [(body & Hb & Hl) Hls].
      constructor; [|done]. exists (c :: body). simpl.
      rewrite Hn, Hr, Hb. split; [done|]. destruct Hl as [->| ->]; auto.
Qed.

Lemma readlines_shape s : Forall line_shape (readlines s).
Proof. by apply (readlines_shape_aux (length s)). Qed.

Lemma no_newline_Forall s :
  no_newline s = true ↔ Forall (λ c, c ≠ NL ∧ c ≠ CR) s.
Proof.
  unfold no_newline. rewrite forallb_forall, Forall_forall.
  split; intros H c Hc.
  - apply list_elem_of_In, H in Hc.
    apply andb_true_iff in Hc as [?%negb_true_iff ?%negb_true_iff].
    by split; apply N.eqb_neq.
  - apply list_elem_of_In, H in Hc as [?%N.eqb_neq ?%N.eqb_neq].
    apply andb_true_iff. by split; apply negb_true_iff.
Qed.

Lemma no_newline_strip s : no_newline s = true → no_newline (strip s) = true.
Proof. rewrite !no_newline_Forall. apply strip_Forall. Qed.

End StringFacts.

(** ** Closed forms of the loops *)

Section Effects.

Lemma world_eta w : World (files w) (log w) (draws w) = w.
Proof. by destruct w. Qed.

Lemma for_each_ext {A} (f g : A → M unit) l w :
  (∀ x w', f x w' = g x w') → for_each l f w = for_each l g w.
Proof.
  intros Hfg. revert w. induction l as [|x l IH]; intros w; [done|].
  cbn [for_each]. unfold bind. rewrite Hfg.
  destruct (g x w) as [[[]|e] w']; [apply IH|done].
Qed.

Lemma for_each_fwrite {A} path (f : A → str) l w c0 :
  files w !! path = Some c0 →
  for_each l (λ x, fwrite path (f x)) w =
  (Ret tt, World (<[path := c0 ++ concat (map f l)]> (files w))
                 (log w ++ map (λ x, EvWrite path (f x)) l) (draws w)).
Proof.
  revert w c0. induction l as [|x l IH]; intros w c0 Hc.
  - simpl. unfold ret. rewrite !app_nil_r, insert_id by done.
    by rewrite world_eta.
  - cbn [for_each]. unfold bind, fwrite at 1. rewrite Hc. cbn [default].
    erewrite IH; [|apply lookup_insert_eq]. unfold emit. cbn.
    by rewrite insert_insert_eq, <- !app_assoc.
Qed.

Lemma for_acc_omap {A B} (f : A → option B) body l acc w :
  (∀ acc' x w',
     body acc' x w'
     = (Ret (match f x with Some q => acc' ++ [q] | None => acc' end), w')) →
  for_acc l acc body w = (Ret (acc ++ omap f l), w).
Proof.
  intros Hbody. revert acc. induction l as [|x l IH]; intros acc.
  - simpl. unfold ret. by rewrite app_nil_r.
  - cbn [for_acc omap list_omap]. unfold bind. rewrite Hbody, IH.
    destruct (f x); [|done]. by rewrite <- app_assoc.
Qed.

End Effects.

(** ** The storage functions *)

Section Storage.

Lemma lower_unknown : lower (lit "Unknown") = lit "unknown".
Proof. reflexivity. Qed.

Lemma strip_unknown : strip (lit "Unknown") = lit "Unknown".
Proof. reflexivity. Qed.

Lemma truthy_ne {A} (s : list A) : truthy s = true ↔ s ≠ [].
Proof. by destruct s. Qed.

Lemma save_body q w :
  (let '(text, author) := q in
   if truthy author && negb (str_eqb (lower author) (lit "unknown"))
   then fwrite QUOTES_FILE (text ++ [PIPE] ++ author ++ [NL])
   else fwrite QUOTES_FILE (text ++ [NL])) w
  = fwrite QUOTES_FILE (spec_line q ++ [NL]) w.
Proof.
  destruct q as [text author]. unfold spec_line, str_eqb. cbn [fst snd].
  rewrite lower_unknown.
  destruct (decide _) as [[Hne Hl]|Hn].
  - apply truthy_ne in Hne. rewrite Hne, bool_decide_eq_false_2 by done.
    cbn [andb negb]. by rewrite <- !app_assoc.
  - destruct author as [|c a]; [done|]. cbn [truthy andb].
    rewrite bool_decide_eq_true_2; [done|].
    destruct (decide (lower (c :: a) = lit "unknown")); [done|].
    exfalso. by apply Hn.
Qed.

Lemma save_quotes_run l w :
  save_quotes l w =
  (Ret tt,
   World (<[QUOTES_FILE := spec_content l]> (files w))
         (log w ++ EvOpenW QUOTES_FILE
                :: map (λ q, EvWrite QUOTES_FILE (spec_line q ++ [NL])) l)
         (draws w)).
Proof.
  unfold save_quotes, bind, open_w.
  rewrite (for_each_ext _ (λ q, fwrite QUOTES_FILE (spec_line q ++ [NL])))
    by (intros [??] ?; apply (save_body (_, _))).
  erewrite for_each_fwrite by (cbn; apply lookup_insert_eq).
  cbn. by rewrite insert_insert_eq, <- app_assoc.
Qed.

Lemma ensure_present w c :
  files w !! QUOTES_FILE = Some c → ensure_quotes_file w = (Ret tt, w).
Proof.
  intros Hc. unfold ensure_quotes_file, bind, path_exists.
  rewrite bool_decide_eq_true_2 by by rewrite Hc. done.
Qed.

Lemma ensure_absent w :
  files w !! QUOTES_FILE = None →
  ensure_quotes_file w =
  (Ret tt,
   World (<[QUOTES_FILE := concat default_lines]> (files w))
         (log w ++ EvOpenW QUOTES_FILE :: map (EvWrite QUOTES_FILE) default_lines)
         (draws w)).
Proof.
  intros Hc. unfold ensure_quotes_file, bind, path_exists.
  rewrite bool_decide_eq_false_2 by (rewrite Hc; by intros [??]).
  cbn [negb]. unfold open_w.
  erewrite for_each_fwrite by (cbn; apply lookup_insert_eq).
  cbn [files log draws emit app]. rewrite insert_insert_eq, <- app_assoc.
  unfold default_lines. by rewrite map_map.
Qed.

Lemma load_body acc raw w :
  (let raw := strip raw in
   if negb (truthy raw) then ret acc
   else
     parts <- (if contains PIPE raw then unpack2 (split1 PIPE raw)
               else ret (raw, lit "Unknown")) ;;
     let '(text, author) := parts in
     ret (acc ++ [(strip text, strip author)])) w
  = (Ret (match spec_parse_line raw with
          | Some q => acc ++ [q]
          | None => acc
          end), w).
Proof.
  cbv zeta. unfold spec_parse_line.
  destruct (strip_decomp raw) as (u1 & u2 & H1 & H2 & Hraw).
  pose proof (tight_strip raw) as Ht.
  destruct (strip raw) as [|c r] eqn:Hr.
  { apply strip_nil_allspace in Hr. by rewrite Hr. }
  assert (Hns : allspace raw = false).
  { apply not_true_is_false. intros Ha%strip_nil_allspace. congruence. }
  rewrite Hns. cbn [truthy negb].
  destruct (contains PIPE (c :: r)) eqn:Hp.
  - apply contains_cut in Hp as (t & a & Hta & Hnt). rewrite Hta.
    rewrite split1_cut by done. unfold bind, unpack2, ret.
    rewrite Hta in Hraw.
    assert (Hraw' : raw = (u1 ++ t) ++ PIPE :: (a ++ u2)).
    { rewrite Hraw. by rewrite <- !app_assoc. }
    rewrite Hraw'.
    rewrite find_char_cut
      by (rewrite contains_app, Hnt, allspace_no_pipe; done).
    rewrite take_app_length, drop_past_cut.
    by rewrite strip_ws_l, strip_ws_r.
  - unfold bind, ret.
    assert (Hnp : contains PIPE raw = false).
    { rewrite Hraw, !contains_app, Hp, !allspace_no_pipe; done. }
    rewrite find_char_none by done.
    rewrite strip_unknown, strip_tight by done. done.
Qed.

Lemma load_quotes_run w c :
  files w !! QUOTES_FILE = Some c → load_quotes w = (Ret (spec_load c), w).
Proof.
  intros Hc. unfold load_quotes, bind.
  rewrite (ensure_present w c Hc). unfold read_lines. rewrite Hc.
  by rewrite (for_acc_omap spec_parse_line) by apply load_body.
Qed.

Lemma trimmed_not_allspace t rest :
  strip t = t → t ≠ [] → allspace (t ++ rest) = false.
Proof.
  intros Ht Hne. destruct t as [|c t']; [done|].
  apply strip_fixed_tight, tight_head in Ht.
  unfold allspace. simpl. by rewrite Ht.
Qed.

Lemma parse_spec_line q :
  storable q → spec_parse_line (spec_line q ++ [NL]) = Some q.
Proof.
  destruct q as [t a].
  intros ((Ht & Htn) & (Ha & Han) & _ & Hp & Hu). cbn [fst snd] in *.
  unfold spec_parse_line, spec_line. cbn [fst snd].
  destruct (decide _) as [[_ Hl]|Hn].
  - rewrite <- !app_assoc. rewrite trimmed_not_allspace by done.
    cbn [app]. rewrite find_char_cut, take_app_length, drop_past_cut by done.
    by rewrite Ht, strip_ws_r, Ha.
  - rewrite trimmed_not_allspace by done.
    rewrite find_char_none by by rewrite contains_app, Hp.
    rewrite strip_ws_r, Ht by done.
    destruct (decide (lower a = lower (lit "Unknown"))) as [->%Hu|Hl]; [done|].
    exfalso. by apply Hn.
Qed.

Lemma no_newline_spec_line q :
  no_newline q.1 = true → no_newline q.2 = true →
  no_newline (spec_line q) = true.
Proof.
  intros H1 H2. unfold spec_line. destruct (decide _); [|done].
  unfold no_newline in *. rewrite forallb_app, H1. exact H2.
Qed.

Lemma readlines_content l :
  Forall storable l →
  readlines (spec_content l) = map (λ q, spec_line q ++ [NL]) l.
Proof.
  unfold spec_content. induction 1 as [|q l Hq _ IH]; [done|].
  cbn [map concat]. rewrite <- app_assoc. cbn [app].
  rewrite readlines_line, IH; [done|].
  destruct Hq as (_ & _ & [??] & _). by apply no_newline_spec_line.
Qed.

Lemma spec_load_content l : Forall storable l → spec_load (spec_content l) = l.
Proof.
  intros Hl. unfold spec_load. rewrite readlines_content by done.
  induction Hl as [|q l Hq _ IH]; [done|].
  cbn [map omap list_omap]. rewrite parse_spec_line by done.
  by f_equal.
Qed.

Lemma spec_parse_line_ws l ws :
  allspace ws = true → spec_parse_line (l ++ ws) = spec_parse_line l.
Proof.
  intros Hws. unfold spec_parse_line.
  rewrite allspace_app, Hws, andb_true_r.
  destruct (allspace l); [done|].
  destruct (contains PIPE l) eqn:Hp.
  - apply contains_cut in Hp as (t & a & -> & Ht).
    rewrite <- app_assoc. cbn [app].
    rewrite !find_char_cut, !take_app_length, !drop_past_cut by done.
    by rewrite strip_ws_r.
  - rewrite !find_char_none, strip_ws_r; try done.
    by rewrite contains_app, Hp, allspace_no_pipe.
Qed.

Lemma spec_parse_line_shape l q :
  no_newline l = true → spec_parse_line l = Some q → loaded_shape q.
Proof.
  unfold spec_parse_line. intros Hnl.
  destruct (allspace l); [done|].
  destruct (contains PIPE l) eqn:Hp.
  - apply contains_cut in Hp as (t & a & -> & Ht).
    rewrite find_char_cut, take_app_length, drop_past_cut by done.
    intros [= <-]. unfold no_newline in Hnl. rewrite forallb_app in Hnl.
    apply andb_true_iff in Hnl as [Hnt [_ Hna]%andb_true_iff].
    repeat split; cbn [fst snd];
      auto using strip_idem, no_newline_strip, contains_strip.
  - rewrite find_char_none by done. intros [= <-].
    repeat split; cbn [fst snd];
      auto using strip_idem, no_newline_strip, contains_strip.
Qed.

Lemma spec_load_shape c : Forall loaded_shape (spec_load c).
Proof.
  unfold spec_load. induction (readlines_shape c) as [|l ls Hl _ IH].
  { constructor. }
  cbn [omap list_omap]. destruct (spec_parse_line l) as [q|] eqn:Hq; [|done].
  constructor; [|done]. destruct Hl as (body & Hb & [->| ->]).
  - rewrite spec_parse_line_ws in Hq by done.
    by apply (spec_parse_line_shape body).
  - by apply (spec_parse_line_shape body).
Qed.

Lemma readlines_single s : no_newline s = true → s ≠ [] → readlines s = [s].
Proof.
  induction s as [|c s IH]; [done|]. intros Hs _.
  cbn [no_newline forallb] in Hs.
  apply andb_true_iff in Hs as [[Hn Hr]%andb_true_iff Hs].
  apply negb_true_iff in Hn, Hr. cbn [readlines]. rewrite Hn, Hr.
  destruct s as [|c' s']; [done|]. by rewrite IH.
Qed.

Lemma ensure_run w :
  ensure_quotes_file w = (Ret tt, ensured w)
  ∧ ∃ c, files (ensured w) !! QUOTES_FILE = Some c.
Proof.
  unfold ensured. destruct (files w !! QUOTES_FILE) as [c|] eqn:Hc.
  - rewrite (ensure_present w c) by done. eauto.
  - rewrite ensure_absent by done. split; [done|].
    eexists. cbn [snd files]. apply lookup_insert_eq.
Qed.

(** [load_quotes] returns a list in every world. *)
Lemma load_quotes_total w : ∃ l w', load_quotes w = (Ret l, w').
Proof.
  destruct (ensure_run w) as [Hw [c Hc]]. exists (spec_load c), (ensured w).
  unfold load_quotes, bind. rewrite Hw. unfold read_lines. rewrite Hc.
  by rewrite (for_acc_omap spec_parse_line) by apply load_body.
Qed.

Lemma load_quotes_any w c :
  files (ensured w) !! QUOTES_FILE = Some c →
  load_quotes w = (Ret (spec_load c), ensured w).
Proof.
  intros Hc. unfold load_quotes, bind.
  rewrite (proj1 (ensure_run w)). unfold read_lines. rewrite Hc.
  by rewrite (for_acc_omap spec_parse_line) by apply load_body.
Qed.

End Storage.

(** ** Loading and saving *)

Ltac by_computation := vm_compute; reflexivity.

Section LoadSave.

(** C7: for every content of the storage file, [load_quotes] returns
    normally, without touching the world, the quotes the spec describes, in
    file order: blank lines skipped, every other line cut at its first
    ["|"] into trimmed text and trimmed author, or taken whole, trimmed, with
    the author "Unknown". *)
Theorem load_quotes_parses_lines w content :
  files w !! QUOTES_FILE = Some content →
  load_quotes w = (Ret (omap spec_parse_line (readlines content)), w).
Proof. intros Hc. exact (load_quotes_run w content Hc). Qed.

Lemma load_quotes_parses_lines_witness :
  let w := with_file (lit "a|b|c
  
 plain text 
|d") in
  files w !! QUOTES_FILE = Some (lit "a|b|c
  
 plain text 
|d")
  ∧ load_quotes w
    = (Ret [(lit "a", lit "b|c"); (lit "plain text", lit "Unknown");
            ([], lit "d")], w).
Proof.
  split; [by_computation|].
  etransitivity; [apply load_quotes_parses_lines|]; by_computation.
Defined.

(** C8: for every list of quotes whose fields UTF-8 can encode,
    [save_quotes] overwrites the storage file with one line per quote,
    [text|author] when the author is present and not, ignoring case,
    "Unknown", and the bare text otherwise; nothing else is written. *)
Theorem save_writes_one_line_per_quote l w :
  Forall encodable_quote l →
  ∃ w', save_quotes l w = (Ret tt, w')
        ∧ files w' = <[QUOTES_FILE := concat (map (λ q, spec_line q ++ [NL]) l)]>
                       (files w)
        ∧ log w' = log w ++ EvOpenW QUOTES_FILE
                     :: map (λ q, EvWrite QUOTES_FILE (spec_line q ++ [NL])) l.
Proof. intros _. eexists. rewrite save_quotes_run. by repeat split. Qed.

Lemma save_writes_one_line_per_quote_witness :
  let l := [(lit "Just text, no pipe.", lit "Unknown");
            (lit "Test quote.", lit "Ada Lovelace");
            (lit "Shouted.", lit "UNKNOWN"); (lit "Nobody.", [])] in
  Forall encodable_quote l
  ∧ ∃ w', save_quotes l (World ∅ [] []) = (Ret tt, w')
          ∧ files w' !! QUOTES_FILE = Some (lit "Just text, no pipe.
Test quote.|Ada Lovelace
Shouted.
Nobody.
").
Proof.
  assert (He : Forall encodable_quote
                 [(lit "Just text, no pipe.", lit "Unknown");
                  (lit "Test quote.", lit "Ada Lovelace");
                  (lit "Shouted.", lit "UNKNOWN"); (lit "Nobody.", [])]).
  { repeat constructor; by vm_compute. }
  split; [exact He|].
  destruct (save_writes_one_line_per_quote _ (World ∅ [] []) He)
    as (w' & Hrun & Hf & _).
  exists w'. split; [exact Hrun|]. rewrite Hf, lookup_insert_eq.
  by_computation.
Defined.

Example save_bare_text :
  files (save_quotes [(lit "Just text, no pipe.", lit "Unknown");
                      (lit "Test quote.", lit "Ada Lovelace");
                      (lit "Shouted.", lit "UNKNOWN")] (World ∅ [] [])).2
  !! QUOTES_FILE
  = Some (lit "Just text, no pipe.
Test quote.|Ada Lovelace
Shouted.
").
Proof. vm_compute. reflexivity. Qed.

(** C9: when the storage file exists, [ensure_quotes_file] changes nothing,
    so calling it twice leaves what calling it once leaves. *)
Theorem ensure_idempotent w content :
  files w !! QUOTES_FILE = Some content →
  ensure_quotes_file w = (Ret tt, w)
  ∧ (ensure_quotes_file ;;; ensure_quotes_file) w = ensure_quotes_file w.
Proof.
  intros Hc. unfold bind. rewrite (ensure_present w content Hc).
  split; [done|]. by rewrite (ensure_present w content Hc).
Qed.

Lemma ensure_idempotent_witness :
  files (with_file (lit "kept|as is")) !! QUOTES_FILE = Some (lit "kept|as is")
  ∧ ensure_quotes_file (with_file (lit "kept|as is"))
    = (Ret tt, with_file (lit "kept|as is")).
Proof.
  split; [by_computation|].
  apply (ensure_idempotent _ (lit "kept|as is")). by_computation.
Defined.

(** C10: a line with only whitespace before its first ["|"] loads as a
    quote whose text is the empty string, so a loaded list need not be
    well-formed. *)
Theorem load_can_return_empty_text w ws author :
  allspace ws = true → no_newline (ws ++ PIPE :: author) = true →
  files w !! QUOTES_FILE = Some (ws ++ PIPE :: author) →
  load_quotes w = (Ret [([], strip author)], w)
  ∧ ¬ Forall well_formed [([], strip author)].
Proof.
  intros Hws Hnl Hc. split.
  - rewrite (load_quotes_run w _ Hc). unfold spec_load.
    rewrite readlines_single by (done || by destruct ws).
    cbn [omap list_omap]. unfold spec_parse_line.
    assert (Hns : allspace (ws ++ PIPE :: author) = false).
    { rewrite allspace_app. apply andb_false_iff. by right. }
    rewrite Hns, find_char_cut by by apply allspace_no_pipe.
    rewrite take_app_length, drop_past_cut.
    by rewrite (proj2 (strip_nil_allspace ws)).
  - intros [[H _] _]%Forall_cons. by apply H.
Qed.

Lemma load_can_return_empty_text_witness :
  load_quotes (with_file (lit " |Ada Lovelace"))
  = (Ret [([], lit "Ada Lovelace")], with_file (lit " |Ada Lovelace")).
Proof.
  apply (load_can_return_empty_text _ (lit " ") (lit "Ada Lovelace"));
    by_computation.
Defined.

(** C1, as stated, fails: a well-formed quote whose text holds a ["|"]
    comes back cut at that place. *)
Lemma roundtrip_well_formed_fails :
  let l := [(lit "a|b", lit "c")] in
  Forall well_formed l
  ∧ (load_quotes (save_quotes l (World ∅ [] [])).2).1
    = Ret [(lit "a", lit "b|c")]
  ∧ (load_quotes (save_quotes l (World ∅ [] [])).2).1 ≠ Ret l.
Proof.
  split; [|split].
  - constructor; [|constructor]. by vm_compute.
  - by_computation.
  - by vm_compute.
Qed.

(** C1, amended: for every list of quotes whose fields UTF-8 can encode and
    are trimmed, non-empty and without newline, whose texts hold no ["|"]
    and whose authors are not a differently-cased "Unknown", loading after
    saving returns exactly that list, and saving it again leaves the same
    file. *)
Theorem save_load_roundtrip l w :
  Forall encodable_quote l →
  Forall storable l →
  let w1 := (save_quotes l w).2 in
  load_quotes w1 = (Ret l, w1)
  ∧ files (save_quotes l w1).2 = files w1.
Proof.
  intros _ Hl. rewrite !save_quotes_run. cbn [snd files]. split.
  - erewrite load_quotes_run by apply lookup_insert_eq.
    by rewrite spec_load_content.
  - rewrite save_quotes_run. cbn [snd files]. by rewrite insert_insert_eq.
Qed.

Lemma save_load_roundtrip_witness :
  let l := [(lit "Stay hungry, stay foolish.", lit "Steve Jobs");
            (lit "Small steps every day.", lit "Unknown")] in
  Forall encodable_quote l
  ∧ Forall storable l
  ∧ (load_quotes (save_quotes l (World ∅ [] [])).2).1 = Ret l.
Proof.
  assert (He : Forall encodable_quote
                 [(lit "Stay hungry, stay foolish.", lit "Steve Jobs");
                  (lit "Small steps every day.", lit "Unknown")]).
  { repeat constructor; by vm_compute. }
  assert (Hl : Forall storable
                 [(lit "Stay hungry, stay foolish.", lit "Steve Jobs");
                  (lit "Small steps every day.", lit "Unknown")]).
  { repeat constructor; vm_compute; congruence. }
  split; [exact He|]. split; [exact Hl|].
  exact (f_equal fst (proj1 (save_load_roundtrip _ (World ∅ [] []) He Hl))).
Defined.

(** C2, as stated, fails: the ninth default quote is by "Unknown". *)
Lemma default_author_unknown :
  (load_quotes (World ∅ [] [])).1 = Ret default_quotes
  ∧ default_quotes !! 8%nat
    = Some (lit "Small steps every day.", lit "Unknown").
Proof. split; by_computation. Qed.

(** C2, amended: without a storage file, [load_quotes] returns the ten
    default quotes in their order and leaves a storage file holding these
    ten as [text|author] lines; nine of them name their author and the
    ninth, "Small steps every day.", is by "Unknown". *)
Theorem first_load_gives_defaults w :
  files w !! QUOTES_FILE = None →
  ∃ w', load_quotes w = (Ret default_quotes, w')
        ∧ length default_quotes = 10%nat
        ∧ files w' = <[QUOTES_FILE := concat (map pipe_line default_quotes)]>
                       (files w)
        ∧ filter (λ q, q.2 = lit "Unknown") default_quotes
          = [(lit "Small steps every day.", lit "Unknown")].
Proof.
  intros Hw.
  assert (He : files (ensured w)
               = <[QUOTES_FILE := concat default_lines]> (files w)).
  { unfold ensured. by rewrite ensure_absent. }
  assert (Hd : spec_load (concat default_lines) = default_quotes)
    by by_computation.
  assert (Hc : concat default_lines = concat (map pipe_line default_quotes))
    by by_computation.
  exists (ensured w). split; [|split; [|split]].
  - rewrite (load_quotes_any w (concat default_lines)); [by rewrite Hd|].
    rewrite He. apply lookup_insert_eq.
  - by_computation.
  - by rewrite He, Hc.
  - by_computation.
Qed.

Lemma first_load_gives_defaults_witness :
  files (World ∅ [] []) !! QUOTES_FILE = None
  ∧ ∃ w', load_quotes (World ∅ [] []) = (Ret default_quotes, w')
          ∧ files w' !! QUOTES_FILE
            = Some (concat (map pipe_line default_quotes)).
Proof.
  split; [by_computation|].
  destruct (first_load_gives_defaults (World ∅ [] [])) as (w' & H1 & _ & H2 & _);
    [by_computation|].
  exists w'. split; [exact H1|]. rewrite H2. apply lookup_insert_eq.
Defined.

End LoadSave.

(** ** The commands *)

Section Commands.

Lemma stdout_print m w : stdout (emit (EvPrint m) w) = stdout w ++ [m].
Proof. unfold stdout, emit. cbn [log]. by rewrite omap_app. Qed.

Lemma written_print m w : written (emit (EvPrint m) w) = written w.
Proof.
  unfold written, emit. cbn [log]. rewrite omap_app. cbn. apply app_nil_r.
Qed.

Lemma ensured_present w c : files w !! QUOTES_FILE = Some c → ensured w = w.
Proof. intros Hc. unfold ensured. by rewrite (ensure_present w c). Qed.

Lemma stdout_ensured w : stdout (ensured w) = stdout w.
Proof.
  unfold ensured. destruct (files w !! QUOTES_FILE) as [c|] eqn:Hc.
  - by rewrite (ensure_present w c).
  - rewrite ensure_absent by done. unfold stdout. cbn [snd log].
    rewrite omap_app. cbn [omap list_omap].
    induction default_lines; cbn; [apply app_nil_r | done].
Qed.

Lemma load_quotes_inv w l w1 :
  load_quotes w = (Ret l, w1) →
  w1 = ensured w ∧ Forall loaded_shape l
  ∧ ∃ c, files w1 !! QUOTES_FILE = Some c ∧ l = spec_load c.
Proof.
  destruct (ensure_run w) as [_ [c Hc]].
  rewrite (load_quotes_any w c Hc). intros [= <- <-].
  split; [done|]. split; [apply spec_load_shape | eauto].
Qed.

(** C5, as stated, fails: without a storage file, the rejected removal
    still leaves a newly written file behind. *)
Lemma rejected_remove_creates_file :
  let w := World ∅ [] [] in
  let w' := (remove_quote 0 w).2 in
  (load_quotes w).1 = Ret default_quotes
  ∧ stdout w' = [lit "Index out of range. Must be 1..10"]
  ∧ files w !! QUOTES_FILE = None
  ∧ files w' !! QUOTES_FILE = Some (concat default_lines)
  ∧ written w' ≠ written w.
Proof. repeat split; try by_computation. by vm_compute. Qed.

(** C5, amended: for every index outside [1..length] of the loaded list,
    [remove_quote] returns after printing the message that names the range
    [1..length]; it saves nothing, so the storage file is as loading left
    it: untouched when it existed. *)
Theorem remove_out_of_range w l w1 index :
  load_quotes w = (Ret l, w1) →
  ¬ (1 ≤ index ≤ Z.of_nat (length l))%Z →
  ∃ w', remove_quote index w = (Ret tt, w')
    ∧ stdout w'
      = stdout w ++ [lit "Index out of range. Must be 1.." ++ of_nat (length l)]
    ∧ files w' = files (ensured w) ∧ written w' = written (ensured w)
    ∧ (is_Some (files w !! QUOTES_FILE) →
       files w' = files w ∧ written w' = written w).
Proof.
  intros Hload Hout. pose proof (load_quotes_inv _ _ _ Hload) as [-> _].
  eexists. split.
  { unfold remove_quote, bind. rewrite Hload.
    replace ((1 <=? index)%Z && (index <=? Z.of_nat (length l))%Z) with false
      by (symmetry; apply not_true_is_false;
          intros [?%Z.leb_le ?%Z.leb_le]%andb_true_iff; lia).
    reflexivity. }
  rewrite stdout_print, written_print, stdout_ensured.
  cbn [files emit]. do 3 (split; [done|]).
  intros [c Hc]. by rewrite (ensured_present w c).
Qed.

Lemma remove_out_of_range_witness :
  let w := with_file (lit "a|b
c|d
") in
  load_quotes w = (Ret [(lit "a", lit "b"); (lit "c", lit "d")], w)
  ∧ ¬ (1 ≤ 3 ≤ Z.of_nat 2)%Z
  ∧ ∃ w', remove_quote 3 w = (Ret tt, w')
          ∧ stdout w' = [lit "Index out of range. Must be 1..2"]
          ∧ files w' = files w.
Proof.
  assert (Hl : load_quotes (with_file (lit "a|b
c|d
")) = (Ret [(lit "a", lit "b"); (lit "c", lit "d")], with_file (lit "a|b
c|d
"))) by by_computation.
  assert (Hi : ¬ (1 ≤ 3 ≤ Z.of_nat 2)%Z) by (simpl; lia).
  split; [exact Hl|]. split; [exact Hi|].
  destruct (remove_out_of_range _ _ _ 3%Z Hl Hi) as (w' & H1 & H2 & _ & _ & H3).
  exists w'. split; [exact H1|]. split; [exact H2|].
  apply H3. eexists. by_computation.
Defined.

Lemma loaded_presentable_storable q :
  loaded_shape q → presentable q → storable q.
Proof. intros (? & ? & [? ?] & ?) (? & ? & ?). by repeat split. Qed.

(** C6, as stated, fails: the stored quotes are well-formed, yet after
    removing the first one the reloaded list holds the removed quote and
    not the remaining one. *)
Lemma remove_keeps_removed_quote :
  let w := with_file (lit "x
x|unknown
") in
  let l := [(lit "x", lit "Unknown"); (lit "x", lit "unknown")] in
  let reloaded := [(lit "x", lit "Unknown")] in
  (load_quotes w).1 = Ret l
  ∧ Forall well_formed l
  ∧ (load_quotes (remove_quote 1 w).2).1 = Ret reloaded
  ∧ l !! 0%nat = Some (lit "x", lit "Unknown")
  ∧ reloaded ≠ take 0 l ++ drop 1 l.
Proof.
  split; [by_computation|]. split.
  { repeat constructor; by vm_compute. }
  split; [by_computation|]. split; [done|]. by vm_compute.
Qed.

(** C6, amended: when every loaded quote has a non-empty text and a
    non-empty author that is not a differently-cased "Unknown", then for
    every index in [1..length], [remove_quote] followed by a load returns
    the loaded list without its entry at that position, one shorter and
    otherwise unchanged and in order. *)
Theorem remove_then_load w l w1 index :
  load_quotes w = (Ret l, w1) →
  Forall presentable l →
  (1 ≤ index ≤ Z.of_nat (length l))%Z →
  let k := Z.to_nat (index - 1) in
  ∃ w2, remove_quote index w = (Ret tt, w2)
    ∧ load_quotes w2 = (Ret (take k l ++ drop (S k) l), w2)
    ∧ length (take k l ++ drop (S k) l) = (length l - 1)%nat.
Proof.
  intros Hload Hp Hin k.
  pose proof (load_quotes_inv _ _ _ Hload) as (_ & Hshape & _).
  assert (Hk : (k < length l)%nat) by (unfold k; lia).
  destruct (lookup_lt_is_Some_2 l k Hk) as [removed Hrem].
  assert (Hst : Forall storable (delete k l)).
  { apply Forall_delete. apply Forall_forall. intros q Hq.
    apply loaded_presentable_storable; eapply Forall_forall; eauto. }
  eexists. split; [|split].
  - unfold remove_quote, bind. rewrite Hload.
    replace ((1 <=? index)%Z && (index <=? Z.of_nat (length l))%Z) with true
      by (symmetry; apply andb_true_iff; split; apply Z.leb_le; lia).
    cbn [negb]. unfold pop.
    replace (index - 1 <? 0)%Z with false by (symmetry; apply Z.ltb_ge; lia).
    replace (0 <=? index - 1)%Z with true by (symmetry; apply Z.leb_le; lia).
    fold k. rewrite Hrem. unfold ret at 1. rewrite save_quotes_run.
    reflexivity.
  - rewrite <- delete_take_drop.
    erewrite load_quotes_run by (cbn [files emit]; apply lookup_insert_eq).
    by rewrite spec_load_content.
  - rewrite <- delete_take_drop, length_delete by eauto. lia.
Qed.

Lemma remove_then_load_witness :
  let w := with_file (lit "a|b
c
e|f
") in
  let l := [(lit "a", lit "b"); (lit "c", lit "Unknown"); (lit "e", lit "f")] in
  load_quotes w = (Ret l, w)
  ∧ Forall presentable l
  ∧ (1 ≤ 2 ≤ Z.of_nat (length l))%Z
  ∧ ∃ w2, remove_quote 2 w = (Ret tt, w2)
          ∧ load_quotes w2 = (Ret [(lit "a", lit "b"); (lit "e", lit "f")], w2).
Proof.
  assert (Hl : load_quotes (with_file (lit "a|b
c
e|f
")) = (Ret [(lit "a", lit "b"); (lit "c", lit "Unknown"); (lit "e", lit "f")],
       with_file (lit "a|b
c
e|f
"))) by by_computation.
  assert (Hp : Forall presentable
                 [(lit "a", lit "b"); (lit "c", lit "Unknown");
                  (lit "e", lit "f")]).
  { repeat constructor; vm_compute; congruence. }
  assert (Hi : (1 ≤ 2 ≤ Z.of_nat 3)%Z) by lia.
  split; [exact Hl|]. split; [exact Hp|]. split; [exact Hi|].
  destruct (remove_then_load _ _ _ 2%Z Hl Hp Hi) as (w2 & H1 & H2 & _).
  exists w2. split; [exact H1 | exact H2].
Defined.

(** [add_quote] on a blank input: the message, and nothing else. *)
Lemma add_quote_blank raw w :
  allspace raw = true →
  add_quote raw w
  = (Ret tt, emit (EvPrint (lit "Provide a non-empty quote.")) w).
Proof.
  intros Hraw%strip_nil_allspace. unfold add_quote. cbv zeta.
  by rewrite Hraw.
Qed.

(** The order in which [main] looks at its arguments. *)
Lemma main_add args c s :
  arg_add args = Some (c :: s) → main args = add_quote (c :: s).
Proof. intros H. unfold main. by rewrite H. Qed.

Lemma main_remove args n :
  arg_truthy (arg_add args) = false → arg_remove args = Some n →
  main args = remove_quote n.
Proof. intros Ha Hr. unfold main. by rewrite Ha, Hr. Qed.

Lemma main_list args :
  arg_truthy (arg_add args) = false → arg_remove args = None →
  arg_list args = true → main args = list_quotes.
Proof. intros Ha Hr Hl. unfold main. by rewrite Ha, Hr, Hl. Qed.

Lemma main_count args :
  arg_truthy (arg_add args) = false → arg_remove args = None →
  arg_list args = false → arg_count args = true →
  main args = (quotes <- load_quotes ;; print (of_nat (length quotes))).
Proof. intros Ha Hr Hl Hc. unfold main. by rewrite Ha, Hr, Hl, Hc. Qed.

Lemma main_random args :
  arg_truthy (arg_add args) = false → arg_remove args = None →
  arg_list args = false → arg_count args = false →
  main args = print_random_quote.
Proof. intros Ha Hr Hl Hc. unfold main. by rewrite Ha, Hr, Hl, Hc. Qed.

(** C3: the add flag given with the empty string does not select the add
    operation: [main] goes on to the list flag, and lists the quotes where
    [add_quote] would have reported the empty input. *)
Theorem empty_add_selects_list :
  let args := {| arg_list := true; arg_count := false;
                 arg_add := Some []; arg_remove := None |} in
  main args = list_quotes
  ∧ stdout (main args (with_file (lit "a|b
"))).2 = [lit "1. a — b"]
  ∧ stdout (add_quote [] (with_file (lit "a|b
"))).2 = [lit "Provide a non-empty quote."].
Proof. split; [reflexivity|]. split; by_computation. Qed.

(** C4: the add flag given with the empty string reports nothing: [main]
    prints a random quote, and without a storage file it writes one. *)
Theorem empty_add_prints_random_quote :
  let args := {| arg_list := false; arg_count := false;
                 arg_add := Some []; arg_remove := None |} in
  let w := World ∅ [] [3%nat] in
  main args = print_random_quote
  ∧ stdout (main args w).2 = [lit "“Stay hungry, stay foolish.” — Steve Jobs"]
  ∧ files w !! QUOTES_FILE = None
  ∧ files (main args w).2 !! QUOTES_FILE = Some (concat default_lines).
Proof. split; [reflexivity|]. repeat split; by_computation. Qed.

Example add_then_load :
  (load_quotes (add_quote (lit "Test quote.|Ada Lovelace") (with_file [])).2).1
  = Ret [(lit "Test quote.", lit "Ada Lovelace")].
Proof. by_computation. Qed.

Example count_three :
  stdout (main {| arg_list := false; arg_count := true;
                  arg_add := None; arg_remove := None |}
               (with_file (lit "a|b
c
d|e"))).2 = [lit "3"].
Proof. by_computation. Qed.

Example remove_reports :
  stdout (remove_quote 1 (with_file (lit "a|b
c"))).2 = [lit "🗑️ Removed: “a” — b"].
Proof. by_computation. Qed.

End Commands.

(** ** Running the commands *)

Section Runs.

Lemma load_quotes_eq w : load_quotes w = (Ret (stored w), ensured w).
Proof.
  destruct (ensure_run w) as [_ [c Hc]]. unfold stored. rewrite Hc.
  by apply load_quotes_any.
Qed.

Lemma ensured_frame w :
  (ensured w = w ∧ is_Some (files w !! QUOTES_FILE))
  ∨ (files w !! QUOTES_FILE = None
     ∧ ensured w
       = World (<[QUOTES_FILE := concat default_lines]> (files w))
               (log w ++ EvOpenW QUOTES_FILE
                      :: map (EvWrite QUOTES_FILE) default_lines)
               (draws w)).
Proof.
  unfold ensured. destruct (files w !! QUOTES_FILE) as [c|] eqn:Hc.
  - left. rewrite (ensure_present w c) by done. eauto.
  - right. by rewrite ensure_absent.
Qed.

Lemma draws_ensured w : draws (ensured w) = draws w.
Proof. by destruct (ensured_frame w) as [[-> _]|[_ ->]]. Qed.

Lemma insert_ensured (c : str) w :
  <[QUOTES_FILE := c]> (files (ensured w)) = <[QUOTES_FILE := c]> (files w).
Proof.
  destruct (ensured_frame w) as [[-> _]|[_ ->]]; [done|].
  cbn [files]. apply insert_insert_eq.
Qed.

Lemma storage_only_ensured w : storage_only w (ensured w).
Proof.
  intros p Hp. destruct (ensured_frame w) as [[-> _]|[_ ->]]; [done|].
  cbn [files]. by apply lookup_insert_ne.
Qed.

Lemma storage_only_insert w w' (c : str) :
  files w' = <[QUOTES_FILE := c]> (files w) → storage_only w w'.
Proof. intros Hw p Hp. rewrite Hw. by apply lookup_insert_ne. Qed.

Lemma omap_writes_print {A} (l : list A) (f : A → str) :
  omap (λ e, match e with EvPrint m => Some m | _ => None end)
       (map (λ x, EvWrite QUOTES_FILE (f x)) l) = [].
Proof. induction l; [done|]. by cbn. Qed.

Lemma stdout_saved fs lg d (l : list quote) :
  stdout (World fs
            (lg ++ EvOpenW QUOTES_FILE
                :: map (λ q, EvWrite QUOTES_FILE (spec_line q ++ [NL])) l) d)
  = stdout (World fs lg d).
Proof.
  unfold stdout. cbn [log]. rewrite omap_app. cbn [omap list_omap].
  rewrite (omap_writes_print l (λ q, spec_line q ++ [NL])). apply app_nil_r.
Qed.

Lemma for_each_print {A} (f : A → str) l w :
  for_each l (λ x, print (f x)) w
  = (Ret tt, World (files w) (log w ++ map (λ x, EvPrint (f x)) l) (draws w)).
Proof.
  revert w. induction l as [|x l IH]; intros w.
  - simpl. unfold ret. by rewrite app_nil_r, world_eta.
  - cbn [for_each]. unfold bind, print at 1. rewrite IH. unfold emit.
    cbn [files log draws map]. by rewrite <- app_assoc.
Qed.

Lemma enumerate_numbered n (l : list quote) :
  map (λ x : nat * quote,
         of_nat x.1 ++ lit ". " ++ x.2.1 ++ lit " — " ++ x.2.2)
      (enumerate (S n) l)
  = imap (λ i q, numbered_line (n + i) q) l.
Proof.
  revert n. induction l as [|q l IH]; intros n; [done|].
  cbn [enumerate map imap]. rewrite IH. cbn [fst snd].
  rewrite Nat.add_0_r. f_equal. apply imap_ext. intros i x _. cbn.
  by rewrite Nat.add_succ_r.
Qed.

Lemma stdout_prints fs lg d (ms : list str) :
  stdout (World fs (lg ++ map EvPrint ms) d) = stdout (World fs lg d) ++ ms.
Proof.
  unfold stdout. cbn [log]. rewrite omap_app. f_equal.
  induction ms; [done|]. cbn. by f_equal.
Qed.

Lemma parse_parts raw :
  allspace raw = false →
  ∃ t a,
    (if contains PIPE (strip raw) then unpack2 (split1 PIPE (strip raw))
     else ret (strip raw, lit "Unknown")) = ret (t, a)
    ∧ spec_parse_line raw = Some (strip t, strip a).
Proof.
  intros Hns. unfold spec_parse_line. rewrite Hns.
  destruct (strip_decomp raw) as (u1 & u2 & H1 & H2 & Hraw).
  destruct (contains PIPE (strip raw)) eqn:Hp.
  - apply contains_cut in Hp as (t & a & Hta & Hnt). exists t, a.
    rewrite Hta, split1_cut by done. split; [done|].
    rewrite Hta in Hraw.
    assert (Hraw' : raw = (u1 ++ t) ++ PIPE :: (a ++ u2)).
    { rewrite Hraw. by rewrite <- !app_assoc. }
    rewrite Hraw'.
    rewrite find_char_cut
      by (rewrite contains_app, Hnt, allspace_no_pipe; done).
    rewrite take_app_length, drop_past_cut.
    by rewrite strip_ws_l, strip_ws_r.
  - exists (strip raw), (lit "Unknown"). split; [done|].
    assert (Hnp : contains PIPE raw = false).
    { rewrite Hraw, !contains_app, Hp, !allspace_no_pipe; done. }
    by rewrite find_char_none, strip_unknown, strip_idem.
Qed.

Lemma add_quote_run raw w :
  allspace raw = false →
  ∃ q, spec_parse_line raw = Some q
    ∧ add_quote raw w
      = (Ret tt,
         emit (EvPrint (lit "✅ Added."))
           (World (<[QUOTES_FILE := spec_content (stored w ++ [q])]> (files w))
                  (log (ensured w) ++ EvOpenW QUOTES_FILE
                     :: map (λ q, EvWrite QUOTES_FILE (spec_line q ++ [NL]))
                            (stored w ++ [q]))
                  (draws w))).
Proof.
  intros Hns. destruct (parse_parts raw Hns) as (t & a & Hparts & Hq).
  exists (strip t, strip a). split; [done|].
  unfold add_quote. cbv zeta.
  assert (Htr : truthy (strip raw) = true).
  { apply truthy_ne. intros He%strip_nil_allspace. congruence. }
  rewrite Htr, Hparts. cbn [negb]. unfold bind, ret at 1.
  rewrite load_quotes_eq, save_quotes_run.
  by rewrite insert_ensured, draws_ensured.
Qed.

Lemma remove_quote_run w k q :
  stored w !! k = Some q →
  remove_quote (Z.of_nat (S k)) w
  = (Ret tt,
     emit (EvPrint (removed_line q))
       (World (<[QUOTES_FILE := spec_content (delete k (stored w))]> (files w))
              (log (ensured w) ++ EvOpenW QUOTES_FILE
                 :: map (λ q, EvWrite QUOTES_FILE (spec_line q ++ [NL]))
                        (delete k (stored w)))
              (draws w))).
Proof.
  intros Hk. pose proof (lookup_lt_Some _ _ _ Hk) as Hlt.
  unfold remove_quote, bind. rewrite load_quotes_eq.
  replace ((1 <=? Z.of_nat (S k))%Z
           && (Z.of_nat (S k) <=? Z.of_nat (length (stored w)))%Z) with true
    by (symmetry; apply andb_true_iff; split; apply Z.leb_le; lia).
  cbn [negb]. unfold pop.
  replace (Z.of_nat (S k) - 1)%Z with (Z.of_nat k) by lia.
  replace (Z.of_nat k <? 0)%Z with false by (symmetry; apply Z.ltb_ge; lia).
  replace (0 <=? Z.of_nat k)%Z with true by (symmetry; apply Z.leb_le; lia).
  rewrite Nat2Z.id, Hk. unfold ret at 1. rewrite save_quotes_run.
  by rewrite insert_ensured, draws_ensured.
Qed.

Lemma remove_quote_rejects w index :
  ¬ (1 ≤ index ≤ Z.of_nat (length (stored w)))%Z →
  remove_quote index w
  = (Ret tt,
     emit (EvPrint (lit "Index out of range. Must be 1.."
                    ++ of_nat (length (stored w)))) (ensured w)).
Proof.
  intros Hout. unfold remove_quote, bind. rewrite load_quotes_eq.
  replace ((1 <=? index)%Z && (index <=? Z.of_nat (length (stored w)))%Z)
    with false
    by (symmetry; apply not_true_is_false;
        intros [?%Z.leb_le ?%Z.leb_le]%andb_true_iff; lia).
  reflexivity.
Qed.

Lemma list_quotes_run w :
  list_quotes w
  = (Ret tt,
     if truthy (stored w)
     then World (files (ensured w))
                (log (ensured w) ++ map EvPrint (imap numbered_line (stored w)))
                (draws (ensured w))
     else emit (EvPrint (lit "No quotes yet. Add some with --add."))
               (ensured w)).
Proof.
  unfold list_quotes, bind. rewrite load_quotes_eq.
  destruct (truthy (stored w)); [|done]. cbn [negb].
  rewrite (for_each_ext _
             (λ x : nat * quote,
                print (of_nat x.1 ++ lit ". " ++ x.2.1 ++ lit " — " ++ x.2.2)))
    by by intros [? [? ?]] ?.
  rewrite for_each_print. rewrite <- (map_map _ EvPrint).
  by rewrite (enumerate_numbered 0).
Qed.

Lemma print_random_quote_run w :
  print_random_quote w
  = (Ret tt,
     match stored w !! (hd 0%nat (draws w) mod length (stored w))%nat with
     | Some q => emit (EvPrint (random_line q))
                   (World (files (ensured w)) (log (ensured w)) (tl (draws w)))
     | None => emit (EvPrint (lit "No quotes found. Add one with --add."))
                 (ensured w)
     end).
Proof.
  unfold print_random_quote, bind. rewrite load_quotes_eq.
  destruct (stored w) as [|q0 l] eqn:Hs; [done|]. cbn [truthy negb].
  unfold random_choice. rewrite draws_ensured.
  destruct (lookup_lt_is_Some_2 (q0 :: l)
              (hd 0%nat (draws w) mod length (q0 :: l))%nat) as [[t a] Hq].
  { apply Nat.mod_upper_bound. done. }
  by rewrite Hq.
Qed.

Lemma main_storage_only args w : storage_only w (main args w).2.
Proof.
  destruct (arg_truthy (arg_add args)) eqn:Ha.
  { destruct (arg_add args) as [[|c raw]|] eqn:Hadd; try done.
    rewrite (main_add args c raw Hadd).
    destruct (allspace (c :: raw)) eqn:Hb.
    - rewrite add_quote_blank by done. by intros p Hp.
    - destruct (add_quote_run (c :: raw) w Hb) as (q & _ & ->).
      by eapply storage_only_insert. }
  destruct (arg_remove args) as [n|] eqn:Hr.
  { rewrite (main_remove args n Ha Hr).
    destruct (decide (1 ≤ n ≤ Z.of_nat (length (stored w)))%Z) as [Hin|Hout].
    - destruct (lookup_lt_is_Some_2 (stored w) (Z.to_nat (n - 1))) as [q Hq];
        [lia|].
      replace n with (Z.of_nat (S (Z.to_nat (n - 1)))) by lia.
      rewrite (remove_quote_run w _ q Hq). by eapply storage_only_insert.
    - rewrite remove_quote_rejects by done. apply storage_only_ensured. }
  destruct (arg_list args) eqn:Hl.
  { rewrite (main_list args Ha Hr Hl), list_quotes_run. cbn [snd].
    destruct (truthy (stored w)); apply storage_only_ensured. }
  destruct (arg_count args) eqn:Hc.
  { rewrite (main_count args Ha Hr Hl Hc). unfold bind.
    rewrite load_quotes_eq. apply storage_only_ensured. }
  rewrite (main_random args Ha Hr Hl Hc), print_random_quote_run. cbn [snd].
  destruct (stored w !! _); apply storage_only_ensured.
Qed.

Lemma lookup_past_prefix {A} (l1 l2 : list A) k :
  (l1 ++ l2) !! (length l1 + k)%nat = l2 !! k.
Proof. induction l1; [done|]. by cbn. Qed.

Lemma written_prints fs lg d (ms : list str) :
  written (World fs (lg ++ map EvPrint ms) d) = written (World fs lg d).
Proof.
  unfold written. cbn [log]. rewrite omap_app.
  replace (omap _ (map EvPrint ms)) with (@nil string);
    [apply app_nil_r|].
  induction ms; [done|]. by cbn.
Qed.

Lemma parse_spec_line_canon q :
  savable q → spec_parse_line (spec_line q ++ [NL]) = Some (canon q).
Proof.
  destruct q as [t a]. intros ((Ht & Htn) & Ha & _ & Hp). cbn [fst snd] in *.
  unfold spec_parse_line, spec_line, canon. cbn [fst snd].
  destruct (decide _) as [[_ Hl]|Hn].
  - rewrite <- !app_assoc. rewrite trimmed_not_allspace by done.
    cbn [app]. rewrite find_char_cut, take_app_length, drop_past_cut by done.
    by rewrite Ht, strip_ws_r, Ha.
  - rewrite trimmed_not_allspace by done.
    rewrite find_char_none by by rewrite contains_app, Hp.
    by rewrite strip_ws_r, Ht.
Qed.

Lemma spec_load_content_canon l :
  Forall savable l → spec_load (spec_content l) = map canon l.
Proof.
  intros Hl. unfold spec_load, spec_content.
  induction Hl as [|q l Hq _ IH]; [done|].
  cbn [map concat]. rewrite <- app_assoc. cbn [app].
  rewrite readlines_line.
  - cbn [omap list_omap]. rewrite parse_spec_line_canon by done.
    by rewrite IH.
  - destruct Hq as (_ & _ & [??] & _). by apply no_newline_spec_line.
Qed.

Lemma loaded_savable q : loaded_shape q → q.1 ≠ [] → savable q.
Proof. intros (? & ? & [? ?] & ?) ?. by repeat split. Qed.

Lemma loaded_all_savable (l : list quote) :
  Forall loaded_shape l → Forall (λ q, q.1 ≠ []) l → Forall savable l.
Proof.
  intros Hs Hn. apply Forall_forall. intros q Hq.
  apply loaded_savable; [by eapply Forall_forall in Hs
                        |by eapply (proj1 (Forall_forall _ _)) in Hn].
Qed.

Lemma spec_parse_line_None line :
  spec_parse_line line = None ↔ allspace line = true.
Proof.
  unfold spec_parse_line. destruct (allspace line); [done|].
  by destruct (find_char PIPE line).
Qed.

Lemma length_spec_parse ls :
  length (omap spec_parse_line ls)
  = length (filter (λ line, allspace line = false) ls).
Proof.
  induction ls as [|line ls IH]; [done|]. cbn [omap list_omap].
  rewrite filter_cons. destruct (allspace line) eqn:Ha.
  - rewrite (proj2 (spec_parse_line_None line) Ha).
    by rewrite decide_False by done.
  - destruct (spec_parse_line line) eqn:Hp.
    + rewrite decide_True by done. cbn. by rewrite IH.
    + apply spec_parse_line_None in Hp. congruence.
Qed.

Lemma spec_load_allspace_aux n s :
  (length s ≤ n)%nat → allspace s = true → spec_load s = [].
Proof.
  unfold spec_load. revert s. induction n as [|n IH]; intros s Hlen Hs.
  - destruct s; [done | simpl in Hlen; lia].
  - destruct s as [|c s]; [done|]. simpl in Hlen.
    cbn [allspace forallb] in Hs. apply andb_true_iff in Hs as [Hc Hs].
    cbn [readlines].
    destruct (N.eqb c NL) eqn:Hn.
    { cbn [omap list_omap]. change (spec_parse_line [NL]) with (@None quote).
      apply IH; [lia|done]. }
    destruct (N.eqb c CR) eqn:Hr.
    { destruct s as [|c' s']; [done|]. simpl in Hlen.
      destruct (N.eqb c' NL);
        cbn [omap list_omap]; change (spec_parse_line [NL]) with (@None quote).
      - cbn [forallb] in Hs. apply andb_true_iff in Hs as [_ Hs].
        apply IH; [lia|done].
      - apply IH; [simpl; lia|done]. }
    assert (IHs : omap spec_parse_line (readlines s) = []) by (apply IH; [lia|done]).
    destruct (readlines s) as [|l ls].
    + cbn [omap list_omap].
      rewrite (proj2 (spec_parse_line_None [c])); [done|].
      cbn. by rewrite Hc.
    + cbn [omap list_omap] in *.
      destruct (spec_parse_line l) eqn:Hl; [done|].
      apply spec_parse_line_None in Hl.
      rewrite (proj2 (spec_parse_line_None (c :: l))); [done|].
      cbn [allspace forallb]. by rewrite Hc.
Qed.

Lemma spec_load_allspace s : allspace s = true → spec_load s = [].
Proof. by apply (spec_load_allspace_aux (length s)). Qed.

Lemma stored_present w c :
  files w !! QUOTES_FILE = Some c → ensured w = w ∧ stored w = spec_load c.
Proof.
  intros Hc. pose proof (ensured_present w c Hc) as He. split; [done|].
  unfold stored. by rewrite He, Hc.
Qed.

Lemma load_quotes_stored w l w1 :
  load_quotes w = (Ret l, w1) → l = stored w ∧ w1 = ensured w.
Proof. rewrite load_quotes_eq. by intros [= <- <-]. Qed.

Lemma spec_line_canon q : spec_line (canon q) = spec_line q.
Proof.
  destruct q as [t a]. unfold spec_line, canon. cbn [fst snd].
  destruct (decide (a ≠ [] ∧ lower a ≠ lower (lit "Unknown"))) as [H|H].
  - by rewrite decide_True by done.
  - rewrite decide_False; [done|]. by intros [_ ?].
Qed.

Lemma spec_content_canon l : spec_content (map canon l) = spec_content l.
Proof.
  unfold spec_content. induction l as [|q l IH]; [done|].
  cbn [map concat]. by rewrite spec_line_canon, IH.
Qed.

Lemma delete_last {A} (l : list A) x : delete (length l) (l ++ [x]) = l.
Proof. induction l; [done|]. cbn. by f_equal. Qed.

Lemma stored_after_save fs lg d c :
  fs !! QUOTES_FILE = Some c →
  ensured (World fs lg d) = World fs lg d
  ∧ stored (World fs lg d) = spec_load c.
Proof. intros Hc. by apply (stored_present (World fs lg d) c). Qed.

End Runs.

(** ** Further properties of the commands *)

Section Further.

(** X1: in every world [load_quotes] returns a list whose quotes have
    trimmed fields without newline and a text without ["|"]. *)
Theorem loaded_quotes_are_trimmed w :
  ∃ l w', load_quotes w = (Ret l, w')
    ∧ Forall (λ q, strip q.1 = q.1 ∧ strip q.2 = q.2
                   ∧ (no_newline q.1 = true ∧ no_newline q.2 = true)
                   ∧ contains PIPE q.1 = false) l.
Proof.
  exists (stored w), (ensured w). split; [apply load_quotes_eq|].
  by destruct (load_quotes_inv _ _ _ (load_quotes_eq w)) as (_ & ? & _).
Qed.

(** X2: the count command prints the number of lines of the storage file
    that are not blank, and leaves everything else as it is. *)
Theorem count_prints_nonblank_lines args w content :
  read_only args → arg_list args = false → arg_count args = true →
  files w !! QUOTES_FILE = Some content →
  main args w
  = (Ret tt,
     emit (EvPrint (of_nat (length (filter (λ line, allspace line = false)
                                           (readlines content))))) w).
Proof.
  intros [Ha Hr] Hl Hc Hf. rewrite (main_count args Ha Hr Hl Hc).
  unfold bind. rewrite (load_quotes_run w content Hf).
  unfold spec_load. by rewrite length_spec_parse.
Qed.

Lemma count_prints_nonblank_lines_witness :
  let args := {| arg_list := false; arg_count := true;
                 arg_add := None; arg_remove := None |} in
  let w := with_file (lit "a|b

c
   
|d") in
  stdout (main args w).2 = [lit "3"].
Proof.
  cbv zeta.
  rewrite (count_prints_nonblank_lines _ _ (lit "a|b

c
   
|d")); [by_computation|by split|by_computation..].
Defined.

(** X3: for quotes whose fields UTF-8 can encode, with trimmed fields
    without newline and a non-empty text without ["|"], loading after
    saving returns the same quotes in the same order, except that an author
    that is empty or "Unknown" in any case comes back as "Unknown". *)
Theorem save_load_normalises l w :
  Forall encodable_quote l →
  Forall savable l →
  load_quotes (save_quotes l w).2 = (Ret (map canon l), (save_quotes l w).2).
Proof.
  intros _ Hl. rewrite save_quotes_run. cbn [snd].
  erewrite load_quotes_run by (cbn [files]; apply lookup_insert_eq).
  by rewrite spec_load_content_canon.
Qed.

Lemma save_load_normalises_witness :
  let l := [(lit "a", []); (lit "b", lit "UNKNOWN"); (lit "c", lit "d|e")] in
  (load_quotes (save_quotes l (World ∅ [] [])).2).1
  = Ret [(lit "a", lit "Unknown"); (lit "b", lit "Unknown");
         (lit "c", lit "d|e")].
Proof.
  cbv zeta.
  rewrite save_load_normalises;
    [by_computation | repeat constructor; by vm_compute..].
Defined.

(** X4: for an input that UTF-8 can encode and that is not blank,
    [add_quote] parses it like a line of the file, rewrites the storage
    file with the loaded quotes followed by the new one, and prints the
    confirmation. *)
Theorem add_quote_appends raw w l w1 :
  encodable raw = true →
  allspace raw = false →
  load_quotes w = (Ret l, w1) →
  ∃ q w', spec_parse_line raw = Some q
    ∧ add_quote raw w = (Ret tt, w')
    ∧ files w' = <[QUOTES_FILE := spec_content (l ++ [q])]> (files w)
    ∧ stdout w' = stdout w ++ [lit "✅ Added."].
Proof.
  intros _ Hns [-> ->]%load_quotes_stored.
  destruct (add_quote_run raw w Hns) as (q & Hq & Hrun).
  exists q. eexists. split; [done|]. split; [exact Hrun|]. split; [done|].
  rewrite stdout_print. unfold emit. rewrite stdout_saved.
  f_equal. rewrite <- (stdout_ensured w). unfold stdout. done.
Qed.

Lemma add_quote_appends_witness :
  let w := with_file (lit "a|b
") in
  ∃ w', add_quote (lit " Just text, no pipe. ") w = (Ret tt, w')
    ∧ files w' !! QUOTES_FILE = Some (lit "a|b
Just text, no pipe.
")
    ∧ stdout w' = [lit "✅ Added."].
Proof.
  cbv zeta.
  destruct (add_quote_appends (lit " Just text, no pipe. ")
              (with_file (lit "a|b
")) [(lit "a", lit "b")] (with_file (lit "a|b
"))) as (q & w' & Hq & Hrun & Hf & Hout); [by_computation..|].
  exists w'. split; [exact Hrun|]. split; [|exact Hout].
  rewrite Hf, lookup_insert_eq. f_equal.
  assert (q = (lit "Just text, no pipe.", lit "Unknown")) as ->.
  { apply (inj Some). rewrite <- Hq. by_computation. }
  by_computation.
Defined.

(** X5: when UTF-8 can encode the input, the input holds no newline and
    neither it nor a loaded quote has an empty text, loading after
    [add_quote] returns the loaded quotes followed by the new one, authors
    normalised to "Unknown" as by every save. *)
Theorem add_quote_then_load raw w l w1 (q : quote) :
  encodable raw = true →
  allspace raw = false → no_newline raw = true →
  load_quotes w = (Ret l, w1) →
  spec_parse_line raw = Some q →
  Forall (λ q, q.1 ≠ []) (l ++ [q]) →
  load_quotes (add_quote raw w).2
  = (Ret (map canon (l ++ [q])), (add_quote raw w).2).
Proof.
  intros _ Hns Hnl Hload Hq Hne.
  pose proof (load_quotes_inv _ _ _ Hload) as (_ & Hshape & _).
  apply load_quotes_stored in Hload as [-> ->].
  destruct (add_quote_run raw w Hns) as (q' & Hq' & ->).
  assert (q' = q) as -> by congruence. cbn [snd].
  erewrite load_quotes_run by (cbn [files emit]; apply lookup_insert_eq).
  rewrite spec_load_content_canon; [done|].
  apply loaded_all_savable; [|done].
  apply Forall_app. split; [done|]. constructor; [|constructor].
  by apply (spec_parse_line_shape raw).
Qed.

Lemma add_quote_then_load_witness :
  (load_quotes (add_quote (lit "Test quote.|Ada Lovelace")
                          (with_file (lit "x|unknown
"))).2).1
  = Ret [(lit "x", lit "Unknown"); (lit "Test quote.", lit "Ada Lovelace")].
Proof.
  rewrite (add_quote_then_load _ _ [(lit "x", lit "unknown")]
             (with_file (lit "x|unknown
")) (lit "Test quote.", lit "Ada Lovelace")); [by_computation..|].
  repeat constructor; by vm_compute.
Defined.

(** X6: [remove_quote] with the number of a loaded quote rewrites the
    storage file with the other quotes in their order, and prints the text
    and the author of the quote that had this number. *)
Theorem remove_quote_reports_removed w l w1 k (q : quote) :
  load_quotes w = (Ret l, w1) →
  l !! k = Some q →
  ∃ w', remove_quote (Z.of_nat (S k)) w = (Ret tt, w')
    ∧ files w' = <[QUOTES_FILE := spec_content (delete k l)]> (files w)
    ∧ stdout w'
      = stdout w ++ [lit "🗑️ Removed: “" ++ q.1 ++ lit "” — " ++ q.2].
Proof.
  intros [-> ->]%load_quotes_stored Hk. eexists.
  split; [by apply remove_quote_run|]. split; [done|].
  rewrite stdout_print. unfold emit. rewrite stdout_saved.
  f_equal. rewrite <- (stdout_ensured w). by unfold stdout.
Qed.

Lemma remove_quote_reports_removed_witness :
  let w := with_file (lit "a|b
c
e|f
") in
  ∃ w', remove_quote 2 w = (Ret tt, w')
    ∧ files w' !! QUOTES_FILE = Some (lit "a|b
e|f
")
    ∧ stdout w' = [lit "🗑️ Removed: “c” — Unknown"].
Proof.
  cbv zeta.
  destruct (remove_quote_reports_removed (with_file (lit "a|b
c
e|f
")) [(lit "a", lit "b"); (lit "c", lit "Unknown"); (lit "e", lit "f")]
    (with_file (lit "a|b
c
e|f
")) 1 (lit "c", lit "Unknown")) as (w' & Hrun & Hf & Hout);
    [by_computation..|].
  exists w'. split; [exact Hrun|]. split; [|exact Hout].
  rewrite Hf, lookup_insert_eq. by_computation.
Defined.

(** X7: when no loaded quote has an empty text, loading after
    [remove_quote] returns the other quotes in their order, one fewer,
    authors normalised to "Unknown" as by every save. *)
Theorem remove_then_load_normalised w l w1 k (q : quote) :
  load_quotes w = (Ret l, w1) →
  Forall (λ q, q.1 ≠ []) l →
  l !! k = Some q →
  load_quotes (remove_quote (Z.of_nat (S k)) w).2
  = (Ret (map canon (delete k l)), (remove_quote (Z.of_nat (S k)) w).2)
  ∧ length (map canon (delete k l)) = (length l - 1)%nat.
Proof.
  intros Hload Hne Hk.
  pose proof (load_quotes_inv _ _ _ Hload) as (_ & Hshape & _).
  apply load_quotes_stored in Hload as [-> ->].
  rewrite (remove_quote_run w k q Hk). cbn [snd]. split.
  - erewrite load_quotes_run by (cbn [files emit]; apply lookup_insert_eq).
    rewrite spec_load_content_canon; [done|].
    apply Forall_delete. by apply loaded_all_savable.
  - rewrite length_map, length_delete by eauto. lia.
Qed.

Lemma remove_then_load_normalised_witness :
  (load_quotes (remove_quote 1 (with_file (lit "x
x|unknown
"))).2).1 = Ret [(lit "x", lit "Unknown")].
Proof.
  destruct (remove_then_load_normalised (with_file (lit "x
x|unknown
")) [(lit "x", lit "Unknown"); (lit "x", lit "unknown")] (with_file (lit "x
x|unknown
")) 0 (lit "x", lit "Unknown")) as [H _];
    [by_computation| |by_computation|].
  - repeat constructor; by vm_compute.
  - change (Z.of_nat 1) with 1%Z in H. rewrite H. by_computation.
Defined.



(** X9: the number [list_quotes] prints before a quote is the index with
    which [remove_quote] removes that quote. *)
Theorem list_number_is_remove_index w l w1 k (q : quote) :
  load_quotes w = (Ret l, w1) →
  l !! k = Some q →
  stdout (list_quotes w).2 !! (length (stdout w) + k)%nat
  = Some (of_nat (S k) ++ lit ". " ++ q.1 ++ lit " — " ++ q.2)
  ∧ stdout (remove_quote (Z.of_nat (S k)) w).2
    = stdout w ++ [lit "🗑️ Removed: “" ++ q.1 ++ lit "” — " ++ q.2].
Proof.
  intros [-> ->]%load_quotes_stored Hk. split.
  - rewrite list_quotes_run. cbn [snd].
    assert (Hne : truthy (stored w) = true) by (by destruct (stored w)).
    rewrite Hne, stdout_prints.
    replace (stdout (World (files (ensured w)) (log (ensured w))
                           (draws (ensured w)))) with (stdout w)
      by (rewrite <- (stdout_ensured w); by unfold stdout).
    etransitivity; [apply lookup_past_prefix|].
    by rewrite list_lookup_imap, Hk.
  - rewrite (remove_quote_run w k q Hk). cbn [snd].
    rewrite stdout_print. unfold emit. rewrite stdout_saved.
    f_equal. rewrite <- (stdout_ensured w). by unfold stdout.
Qed.

Lemma list_number_is_remove_index_witness :
  let w := with_file (lit "a|b
c|d
") in
  stdout (list_quotes w).2 !! 1%nat = Some (lit "2. c — d")
  ∧ stdout (remove_quote 2 w).2 = [lit "🗑️ Removed: “c” — d"].
Proof.
  exact (list_number_is_remove_index (with_file (lit "a|b
c|d
")) [(lit "a", lit "b"); (lit "c", lit "d")] (with_file (lit "a|b
c|d
")) 1 (lit "c", lit "d") eq_refl eq_refl).
Defined.



(** X11: when the storage file holds only whitespace, listing and the
    random quote print their hint, counting prints 0, and none of them
    raises or changes the file. *)
Theorem empty_store_messages w content :
  files w !! QUOTES_FILE = Some content → allspace content = true →
  list_quotes w
  = (Ret tt, emit (EvPrint (lit "No quotes yet. Add some with --add.")) w)
  ∧ print_random_quote w
    = (Ret tt, emit (EvPrint (lit "No quotes found. Add one with --add.")) w)
  ∧ (quotes <- load_quotes ;; print (of_nat (length quotes))) w
    = (Ret tt, emit (EvPrint (lit "0")) w).
Proof.
  intros Hf Hs. destruct (stored_present w content Hf) as [He Hst].
  rewrite spec_load_allspace in Hst by done.
  rewrite list_quotes_run, print_random_quote_run. unfold bind.
  rewrite load_quotes_eq, Hst, He. done.
Qed.

Lemma empty_store_messages_witness :
  stdout (list_quotes (with_file (lit "
   
"))).2 = [lit "No quotes yet. Add some with --add."].
Proof.
  destruct (empty_store_messages (with_file (lit "
   
")) (lit "
   
")) as [H _]; [by_computation..|].
  rewrite H. by_computation.
Defined.

(** X12: with a storage file in place, a command without add and remove
    argument returns without writing: the files are as before. *)
Theorem read_only_commands_keep_storage args w :
  read_only args → is_Some (files w !! QUOTES_FILE) →
  ∃ w', main args w = (Ret tt, w')
    ∧ files w' = files w ∧ written w' = written w.
Proof.
  intros [Ha Hr] [c Hc]. pose proof (ensured_present w c Hc) as He.
  destruct (arg_list args) eqn:Hl.
  { rewrite (main_list args Ha Hr Hl), list_quotes_run, He.
    destruct (truthy (stored w)); eexists; (split; [reflexivity|]).
    - rewrite written_prints. by unfold written.
    - by rewrite written_print. }
  destruct (arg_count args) eqn:Hct.
  { rewrite (main_count args Ha Hr Hl Hct). unfold bind.
    rewrite load_quotes_eq, He. eexists. split; [reflexivity|].
    by rewrite written_print. }
  rewrite (main_random args Ha Hr Hl Hct), print_random_quote_run, He.
  destruct (stored w !! _); eexists; (split; [reflexivity|]);
    rewrite written_print; by unfold written.
Qed.

Lemma read_only_commands_keep_storage_witness :
  let args := {| arg_list := true; arg_count := true;
                 arg_add := Some []; arg_remove := None |} in
  ∃ w', main args (with_file (lit "a|b")) = (Ret tt, w')
    ∧ files w' = files (with_file (lit "a|b")).
Proof.
  cbv zeta.
  destruct (read_only_commands_keep_storage
              {| arg_list := true; arg_count := true;
                 arg_add := Some []; arg_remove := None |}
              (with_file (lit "a|b"))) as (w' & Hrun & Hf & _).
  - by split.
  - eexists. by_computation.
  - exists w'. by split.
Defined.

(** X14: whatever the arguments, [main] leaves every file other than the
    storage file as it is. *)
Theorem main_touches_only_storage args w p :
  p ≠ QUOTES_FILE → files (main args w).2 !! p = files w !! p.
Proof.
  intros Hp. by apply main_storage_only.
Qed.

Lemma main_touches_only_storage_witness :
  files (main {| arg_list := false; arg_count := false;
                 arg_add := Some (lit "new|one"); arg_remove := None |}
              (World {[ "notes.txt"%string := lit "mine" ]} [] [])).2
  !! "notes.txt"%string = Some (lit "mine").
Proof.
  rewrite main_touches_only_storage; [by_computation|].
  by vm_compute.
Defined.

(** X15: an add argument that is not empty but holds only whitespace is
    reported and changes nothing, whatever the other flags are. *)
Theorem blank_add_is_reported args c raw w :
  arg_add args = Some (c :: raw) → allspace (c :: raw) = true →
  main args w
  = (Ret tt, emit (EvPrint (lit "Provide a non-empty quote.")) w).
Proof.
  intros Hadd Hb. rewrite (main_add args c raw Hadd).
  by apply add_quote_blank.
Qed.

Lemma blank_add_is_reported_witness :
  main {| arg_list := true; arg_count := false;
          arg_add := Some (lit "  "); arg_remove := Some 1%Z |}
       (World ∅ [] [])
  = (Ret tt, World ∅ [EvPrint (lit "Provide a non-empty quote.")] []).
Proof.
  rewrite (blank_add_is_reported _ 32%N [32%N]); by_computation.
Defined.

(** X16: in every world, also without a storage file, calling
    [ensure_quotes_file] twice leaves what calling it once leaves. *)
Theorem ensure_twice w :
  (ensure_quotes_file ;;; ensure_quotes_file) w = ensure_quotes_file w.
Proof.
  unfold bind. destruct (ensure_run w) as [Hw [c Hc]]. rewrite Hw.
  by rewrite (ensure_present _ c Hc).
Qed.

(** X17: loading a second time returns the same list and changes nothing
    more: after the first load the world is stable under [load_quotes]. *)
Theorem load_twice w :
  ∃ l w1, load_quotes w = (Ret l, w1) ∧ load_quotes w1 = (Ret l, w1).
Proof.
  exists (stored w), (ensured w). split; [apply load_quotes_eq|].
  destruct (ensure_run w) as [_ [c Hc]].
  rewrite (load_quotes_run _ c Hc). unfold stored. by rewrite Hc.
Qed.

(** X18: [save_quotes] overwrites: what the storage file held before, also
    from an earlier save, has no effect on the files it leaves. *)
Theorem save_overwrites l1 l2 w :
  files (save_quotes l2 (save_quotes l1 w).2).2 = files (save_quotes l2 w).2.
Proof.
  rewrite !save_quotes_run. cbn [snd files]. apply insert_insert_eq.
Qed.

(** X19: removing the quote that was just added undoes the addition: when
    the input holds no newline and no text involved is empty, the storage
    file is then the saved form of the quotes loaded before. *)
Theorem add_then_remove_last raw w l w1 (q : quote) :
  allspace raw = false → no_newline raw = true →
  load_quotes w = (Ret l, w1) →
  spec_parse_line raw = Some q →
  Forall (λ q, q.1 ≠ []) (l ++ [q]) →
  files (remove_quote (Z.of_nat (S (length l))) (add_quote raw w).2).2
  = <[QUOTES_FILE := spec_content l]> (files w).
Proof.
  intros Hns Hnl Hload Hq Hne.
  pose proof (load_quotes_inv _ _ _ Hload) as (_ & Hshape & _).
  apply load_quotes_stored in Hload as [-> ->].
  destruct (add_quote_run raw w Hns) as (q' & Hq' & ->).
  assert (q' = q) as -> by congruence. cbn [snd]. unfold emit. cbn [files log draws].
  match goal with
  | |- context [remove_quote _ (World ?fs ?lg ?d)] =>
      destruct (stored_after_save fs lg d (spec_content (stored w ++ [q]))
                  (lookup_insert_eq _ _ _)) as [He Hst];
      set (w2 := World fs lg d) in *
  end.
  assert (Hsv : Forall savable (stored w ++ [q])).
  { apply loaded_all_savable; [|done]. apply Forall_app. split; [done|].
    constructor; [|constructor]. by apply (spec_parse_line_shape raw). }
  rewrite spec_load_content_canon in Hst by done.
  assert (Hk : stored w2 !! length (stored w) = Some (canon q)).
  { rewrite Hst, list_lookup_fmap, lookup_app_r, Nat.sub_diag by done. done. }
  rewrite (remove_quote_run w2 _ _ Hk). cbn [snd files emit].
  rewrite Hst. subst w2. cbn [files]. rewrite insert_insert_eq. f_equal.
  rewrite <- (length_map canon), map_app. cbn [map].
  by rewrite delete_last, spec_content_canon.
Qed.

Lemma add_then_remove_last_witness :
  files (remove_quote 2 (add_quote (lit "new|one")
                                   (with_file (lit "  a | b  "))).2).2
  = {[ QUOTES_FILE := lit "a|b
" ]}.
Proof.
  etransitivity;
    [apply (add_then_remove_last (lit "new|one") (with_file (lit "  a | b  "))
              [(lit "a", lit "b")] (with_file (lit "  a | b  "))
              (lit "new", lit "one"))|];
    try by_computation.
  repeat constructor; by vm_compute.
Defined.

End Further.
